(** * Jira timesheet reporting: types, validation wrappers and helpers

    A shallow embedding of the helper functions and validation schemas of
    the repository ([src/types/jira.ts], [src/types/core.ts],
    [src/types/grouping.ts], the API request schemas and the validation
    utilities), with the properties the specification states about them.

    Modelling conventions.
    - A JavaScript string is a [string]; functions that scan a string work
      on its list of characters.
    - A JavaScript number is modelled by an exact rational ([Q]); binary64
      rounding is abstracted away.  Where a schema has to tell NaN and the
      infinities apart they are separate constructors of [number].
    - A function that throws returns a [Completion]: [Return v] or
      [Throw message]. *)

From Stdlib Require Import List String Ascii Bool Arith ZArith NArith.
From Stdlib Require Import QArith Qround Qabs Lia Lqa.
Import ListNotations.

Set Warnings "-register-all".

Local Open Scope char_scope.

(* ================================================================== *)
(** * Characters and decimal numerals *)
(* ================================================================== *)

Module Chars.

Definition chars := list ascii.

(** The character class [\d] of a JavaScript regular expression: the ten
    ASCII digits. *)
Definition is_digit (c : ascii) : bool :=
  let n := N_of_ascii c in ((48 <=? n) && (n <=? 57))%N.

Definition digit_char (d : N) : ascii := ascii_of_N (48 + d).

Definition digit_val (c : ascii) : N := N_of_ascii c - 48.

(** The decimal numeral of [n], most significant digit first.  The
    recursion divides by ten; [fuel] bounds it by the binary length of
    [n], which is never less than the decimal length. *)
Fixpoint decimal_aux (fuel : nat) (n : N) (acc : chars) : chars :=
  match fuel with
  | O => acc
  | S fuel' =>
      let acc' := digit_char (n mod 10) :: acc in
      if (n / 10 =? 0)%N then acc' else decimal_aux fuel' (n / 10) acc'
  end.

Definition decimal (n : N) : chars :=
  decimal_aux (S (N.to_nat (N.log2 n))) n [].

(** [parseInt(s, 10)] on a string of digits: the value of the numeral. *)
Definition parseInt_from (a : N) (s : chars) : N :=
  fold_left (fun acc c => (acc * 10 + digit_val c)%N) s a.

Definition parseInt10 (s : chars) : N := parseInt_from 0 s.

(** A string of digits. *)
Definition digits (s : chars) : Prop := Forall (fun c => is_digit c = true) s.

(** [Array.prototype.join]. *)
Fixpoint join (sep : chars) (parts : list chars) : chars :=
  match parts with
  | [] => []
  | [p] => p
  | p :: ps => p ++ sep ++ join sep ps
  end.

(** Dropping the zeros at the end of a numeral. *)
Definition strip_trailing_zeros (s : chars) : chars :=
  rev (
    (fix drop (r : chars) : chars :=
       match r with
       | "0" :: r' => drop r'
       | _ => r
       end) (rev s)).

(** [Number::toString] (radix 10) of ECMAScript on a non-negative integral
    value [n].  With [k] significant digits [s] (no zeros at the end) and
    [e + 1] digits in all: the plain decimal numeral when [e + 1 <= 21],
    otherwise the exponent notation [d.ddd e+e], without the point when
    [k = 1]. *)
Definition Number_toString (n : N) : chars :=
  let ds := decimal n in
  if (List.length ds <=? 21)%nat then ds
  else
    let e := decimal (N.of_nat (List.length ds - 1)) in
    match strip_trailing_zeros ds with
    | [] => ds
    | [d] => d :: "e" :: "+" :: e
    | d :: rest => d :: "." :: rest ++ "e" :: "+" :: e
    end.

End Chars.

(* ================================================================== *)
(** * Regular expressions of the form [(\d+)c] *)
(* ================================================================== *)

Module Regex.
Import Chars.

(** Matching [(\d+)c] at the head of [s], as a backtracking matcher does:
    [\d+] is greedy, so the longer run of digits is tried first, and only
    when the rest fails is the run ended here, where the next character
    must be [c].  The result is the capture group. *)
Fixpoint match_here (c : ascii) (s : chars) : option chars :=
  match s with
  | d :: s' =>
      if is_digit d then
        match match_here c s' with
        | Some ds => Some (d :: ds)
        | None =>
            match s' with
            | x :: _ => if Ascii.eqb x c then Some [d] else None
            | [] => None
            end
        end
      else None
  | [] => None
  end.

(** [s.match(/(\d+)c/)]: the leftmost position where the pattern matches;
    [None] stands for [null], [Some ds] for a match whose group 1 is
    [ds]. *)
Fixpoint regex_match (c : ascii) (s : chars) : option chars :=
  match match_here c s with
  | Some ds => Some ds
  | None =>
      match s with
      | [] => None
      | _ :: s' => regex_match c s'
      end
  end.

End Regex.

(* ================================================================== *)
(** * [src/types/jira.ts]: time strings *)
(* ================================================================== *)

Module Jira.
Import Chars Regex.

Local Open Scope Q_scope.

(** [Math.floor] and [Math.round] (halves go up). *)
Definition Math_floor (x : Q) : Z := Qfloor x.
Definition Math_round (x : Q) : Z := Qfloor (x + (1 # 2)).

Definition num (n : N) : Q := inject_Z (Z.of_N n).

Definition parseJiraTimeSpent_chars (timeSpent : chars) : Q :=
  let dayMatch := regex_match "d" timeSpent in
  let hourMatch := regex_match "h" timeSpent in
  let minuteMatch := regex_match "m" timeSpent in
  let days := match dayMatch with Some g => parseInt10 g | None => 0%N end in
  let hours := match hourMatch with Some g => parseInt10 g | None => 0%N end in
  let minutes :=
    match minuteMatch with Some g => parseInt10 g | None => 0%N end in
  (num days * 8) + num hours + (num minutes / 60).

Definition parseJiraTimeSpent (timeSpent : string) : Q :=
  parseJiraTimeSpent_chars (list_ascii_of_string timeSpent).

(** The template literal [`${n}h`] is only evaluated under the guard
    [n > 0], so the number it prints is a positive integer. *)
Definition formatHoursAsJiraTime_chars (hours : Q) : chars :=
  let wholeHours := Math_floor hours in
  let minutes := Math_round ((hours - inject_Z wholeHours) * 60) in
  if ((wholeHours =? 0) && (minutes =? 0))%Z then ["0"; "m"]
  else
    let parts :=
      (if (0 <? wholeHours)%Z
       then [Number_toString (Z.to_N wholeHours) ++ ["h"]] else [])
      ++
      (if (0 <? minutes)%Z
       then [Number_toString (Z.to_N minutes) ++ ["m"]] else []) in
    join [" "] parts.

Definition formatHoursAsJiraTime (hours : Q) : string :=
  string_of_list_ascii (formatHoursAsJiraTime_chars hours).

(** A Jira time string with optional day, hour and minute components,
    separated by single spaces: ["1d 3h 30m"], ["2h 30m"], ["45m"]. *)
Definition component (unit : ascii) (n : option N) : list chars :=
  match n with
  | Some v => [decimal v ++ [unit]]
  | None => []
  end.

Definition jira_time (d h m : option N) : string :=
  string_of_list_ascii
    (join [" "] (component "d" d ++ component "h" h ++ component "m" m)).


(** More generally, a time string is a list of components in any order,
    each an amount and its unit letter. *)
Definition render (t : N * ascii) : chars := decimal (fst t) ++ [snd t].




(** The components [formatHoursAsJiraTime] writes. *)
Definition format_tokens (hours : Q) : list (N * ascii) :=
  let wholeHours := Math_floor hours in
  let minutes := Math_round ((hours - inject_Z wholeHours) * 60) in
  if ((wholeHours =? 0) && (minutes =? 0))%Z then [(0%N, "m")]
  else
    (if (0 <? wholeHours)%Z then [(Z.to_N wholeHours, "h")] else [])
    ++ (if (0 <? minutes)%Z then [(Z.to_N minutes, "m")] else []).

End Jira.


(* ================================================================== *)
(** * Validation utilities: [sanitizeFileName] *)
(* ================================================================== *)

Module Sanitize.
Import Chars.

Local Open Scope N_scope.

(** The characters of the class [[a-zA-Z0-9.-]]. *)
Definition allowed (c : ascii) : bool :=
  let n := N_of_ascii c in
  ((97 <=? n) && (n <=? 122)) || ((65 <=? n) && (n <=? 90))
  || ((48 <=? n) && (n <=? 57)) || (n =? 46) || (n =? 45).

Definition is_us (c : ascii) : bool := Ascii.eqb c "_".

(** [.replace(/[^a-zA-Z0-9.-]/g, '_')]: every character outside the
    class is replaced by an underscore. *)
Definition replace_disallowed (s : chars) : chars :=
  map (fun c => if allowed c then c else "_") s.

(** What a maximal run of [run] underscores leaves behind under
    [.replace(/_{2,}/g, '_')]: a run of one is not matched and stays, a
    run of two or more is one match and is replaced by one underscore. *)
Definition emit (run : nat) : chars :=
  match run with
  | O => []
  | S O => ["_"]
  | S (S _) => ["_"]
  end.

(** [.replace(/_{2,}/g, '_')], scanning from the left; [run] counts the
    underscores of the run being read ([_{2,}] is greedy, so a match is
    a maximal run). *)
Fixpoint collapse_from (run : nat) (s : chars) : chars :=
  match s with
  | [] => emit run
  | c :: s' =>
      if is_us c then collapse_from (S run) s'
      else emit run ++ c :: collapse_from O s'
  end.

Definition collapse_underscores (s : chars) : chars := collapse_from O s.

(** The second alternative of [/^_|_$/g]: an underscore at the end. *)
Fixpoint strip_last (s : chars) : chars :=
  match s with
  | [] => []
  | [c] => if is_us c then [] else [c]
  | c :: s' => c :: strip_last s'
  end.

(** [.replace(/^_|_$/g, '')]: an underscore at index 0 is removed by the
    first alternative, and one at the last index (when it is not that
    same character) by the second. *)
Definition strip_edges (s : chars) : chars :=
  match s with
  | [] => []
  | c :: s' => if is_us c then strip_last s' else strip_last s
  end.

Definition sanitizeFileName_chars (fileName : chars) : chars :=
  strip_edges (collapse_underscores (replace_disallowed fileName)).

Definition sanitizeFileName (fileName : string) : string :=
  string_of_list_ascii
    (sanitizeFileName_chars (list_ascii_of_string fileName)).

(** The shape of a sanitized name. *)
Definition name_char (c : ascii) : Prop := allowed c = true \/ c = "_".

Fixpoint no_double_us (s : chars) : bool :=
  match s with
  | [] => true
  | c :: s' =>
      match s' with
      | c' :: _ => negb (is_us c && is_us c') && no_double_us s'
      | [] => true
      end
  end.

Definition starts_with_us (s : chars) : bool :=
  match s with
  | c :: _ => is_us c
  | [] => false
  end.

Fixpoint ends_with_us (s : chars) : bool :=
  match s with
  | [] => false
  | c :: s' =>
      match s' with
      | [] => is_us c
      | _ :: _ => ends_with_us s'
      end
  end.

End Sanitize.

(* ================================================================== *)
(** * JavaScript values *)
(* ================================================================== *)

Module Js.

Local Open Scope string_scope.

(** A JavaScript number: a finite value, an infinity or NaN. *)
Inductive number : Type :=
| Fin (q : Q)
| PosInf
| NegInf
| NaN.

(** The values a validator can be handed ([unknown]).  [VOther kind]
    stands for a value of any other kind, named as zod's [getParsedType]
    names it: a function, a symbol, a bigint, a date, a map, a set, a
    promise. *)
Inductive value : Type :=
| VUndefined
| VNull
| VBool (b : bool)
| VNum (n : number)
| VStr (s : string)
| VArr (items : list value)
| VObj (props : list (string * value))
| VOther (kind : string).

(** [obj[key]]: the first binding of [key], [undefined] when there is
    none. *)
Fixpoint get (props : list (string * value)) (key : string) : value :=
  match props with
  | [] => VUndefined
  | (k, v) :: props' => if String.eqb k key then v else get props' key
  end.

(** [key in obj]. *)
Definition has (props : list (string * value)) (key : string) : bool :=
  existsb (fun kv => String.eqb (fst kv) key) props.

(** [x.key] for a value that may not be an object. *)
Definition field (x : value) (key : string) : value :=
  match x with
  | VObj props => get props key
  | _ => VUndefined
  end.

(** [n > 0], [n >= b], [n <= b] on numbers; every comparison with NaN is
    false. *)
Definition gt0 (n : number) : bool :=
  match n with
  | Fin q => negb (Qle_bool q 0)
  | PosInf => true
  | NegInf | NaN => false
  end.

Definition le_num (n : number) (b : Q) : bool :=
  match n with
  | Fin q => Qle_bool q b
  | NegInf => true
  | PosInf | NaN => false
  end.

(** A function that may throw an [Error]. *)
Inductive Completion (T : Type) : Type :=
| Return (v : T)
| Throw (message : string).
Arguments Return {T} v.
Arguments Throw {T} message.

Definition returns {T} (c : Completion T) : Prop := exists v, c = Return v.
Definition throws {T} (c : Completion T) : Prop := exists m, c = Throw m.

End Js.

(* ================================================================== *)
(** * zod: schemas and [safeParse] *)
(* ================================================================== *)

(** The repository builds its validators from the zod library (version 3:
    the code reads [result.error.errors]).  This module gives the schema
    constructors the repository uses and their parsing semantics: type
    checks, refinements, issue paths and default messages. *)
Module Zod.
Import Js.

Local Open Scope string_scope.
Local Infix "+:+" := String.append (at level 60, right associativity).

(** The string formats zod checks with regular expressions of its own
    ([.email()]) or with the platform's [URL] constructor ([.url()]); they
    are not part of the repository and stay abstract. *)
Class Formats : Type := {
  is_email : string -> bool;
  is_url : string -> bool
}.

(** One step of an issue's path: a property name or an array index. *)
Inductive PathKey : Type :=
| PKey (name : string)
| PIndex (i : N).

Record ZodIssue : Type := mkIssue {
  path : list PathKey;
  message : string
}.

Inductive SafeParseReturnType (T : Type) : Type :=
| Success (data : T)
| Failure (errors : list ZodIssue).
Arguments Success {T} data.
Arguments Failure {T} errors.

(** [z.ZodSchema<T>]: what [validateData] uses of a schema. *)
Record ZodSchema (T : Type) : Type := {
  safeParse : value -> SafeParseReturnType T
}.
Arguments safeParse {T} _ _.

Inductive StringCheck : Type :=
| Email
| Url.

Inductive NumberCheck : Type :=
| Positive
| Max (bound : N).

Inductive Schema : Type :=
| ZString (checks : list StringCheck)
| ZNumber (checks : list NumberCheck)
| ZBoolean
| ZEnum (values : list string)
| ZAny
| ZOptional (inner : Schema)
| ZArray (element : Schema)
| ZObject (shape : list (string * Schema)).

(** [getParsedType]. *)
Definition getParsedType (data : value) : string :=
  match data with
  | VUndefined => "undefined"
  | VNull => "null"
  | VBool _ => "boolean"
  | VNum NaN => "nan"
  | VNum _ => "number"
  | VStr _ => "string"
  | VArr _ => "array"
  | VObj _ => "object"
  | VOther kind => kind
  end.

(** The default message of an [invalid_type] issue. *)
Definition invalid_type (p : list PathKey) (expected : string) (data : value)
  : ZodIssue :=
  match data with
  | VUndefined => mkIssue p "Required"
  | _ => mkIssue p ("Expected " +:+ expected +:+ ", received "
                    +:+ getParsedType data)
  end.

(** [util.joinValues]: ['a' | 'b' | 'c']. *)
Definition joinValues (values : list string) : string :=
  String.concat " | " (map (fun v => "'" +:+ v +:+ "'") values).

Definition invalid_enum_value (p : list PathKey) (values : list string)
  (received : string) : ZodIssue :=
  mkIssue p ("Invalid enum value. Expected " +:+ joinValues values
             +:+ ", received '" +:+ received +:+ "'").

Section Parsing.
Context {formats : Formats}.

Definition string_check (p : list PathKey) (s : string) (c : StringCheck)
  : list ZodIssue :=
  match c with
  | Email => if is_email s then [] else [mkIssue p "Invalid email"]
  | Url => if is_url s then [] else [mkIssue p "Invalid url"]
  end.

(** [.positive()] is the exclusive lower bound 0, [.max(b)] the inclusive
    upper bound [b]. *)
Definition number_check (p : list PathKey) (n : number) (c : NumberCheck)
  : list ZodIssue :=
  match c with
  | Positive =>
      if gt0 n then [] else [mkIssue p "Number must be greater than 0"]
  | Max b =>
      if le_num n (inject_Z (Z.of_N b)) then []
      else [mkIssue p ("Number must be less than or equal to "
                       +:+ string_of_list_ascii (Chars.decimal b))]
  end.

(** Parsing the items of an array, the index of each on its path. *)
Fixpoint parse_items (parse1 : list PathKey -> value -> list ZodIssue * value)
  (p : list PathKey) (i : N) (items : list value)
  : list (list ZodIssue * value) :=
  match items with
  | [] => []
  | item :: items' =>
      parse1 (p ++ [PIndex i])%list item
      :: parse_items parse1 p (N.succ i) items'
  end.

(** A parsed property is kept when the key is in the input or the parsed
    value is not [undefined]. *)
Definition keep_property (props : list (string * value))
  (kv : string * value) : bool :=
  has props (fst kv)
  || match snd kv with VUndefined => false | _ => true end.

(** Parsing [data] against a schema at path [p]: the issues raised, in
    the order zod raises them, and the parsed value (the data of a
    successful parse; an object keeps the properties of its shape only). *)
Fixpoint parse (s : Schema) (p : list PathKey) (data : value) {struct s}
  : list ZodIssue * value :=
  match s with
  | ZString checks =>
      match data with
      | VStr str => (flat_map (string_check p str) checks, data)
      | _ => ([invalid_type p "string" data], data)
      end
  | ZNumber checks =>
      match data with
      | VNum NaN => ([invalid_type p "number" data], data)
      | VNum n => (flat_map (number_check p n) checks, data)
      | _ => ([invalid_type p "number" data], data)
      end
  | ZBoolean =>
      match data with
      | VBool _ => ([], data)
      | _ => ([invalid_type p "boolean" data], data)
      end
  | ZEnum values =>
      match data with
      | VStr str =>
          if existsb (String.eqb str) values then ([], data)
          else ([invalid_enum_value p values str], data)
      | _ => ([invalid_type p (joinValues values) data], data)
      end
  | ZAny => ([], data)
  | ZOptional inner =>
      match data with
      | VUndefined => ([], VUndefined)
      | _ => parse inner p data
      end
  | ZArray element =>
      match data with
      | VArr items =>
          let results := parse_items (parse element) p 0%N items in
          (List.concat (map fst results), VArr (map snd results))
      | _ => ([invalid_type p "array" data], data)
      end
  | ZObject shape =>
      match data with
      | VObj props =>
          let results :=
            (fix parse_shape (sh : list (string * Schema))
               : list (string * (list ZodIssue * value)) :=
               match sh with
               | [] => []
               | (key, sk) :: sh' =>
                   (key, parse sk (p ++ [PKey key])%list (get props key))
                   :: parse_shape sh'
               end) shape in
          (List.concat (map (fun r => fst (snd r)) results),
           VObj (filter (keep_property props)
                   (map (fun r => (fst r, snd (snd r))) results)))
      | _ => ([invalid_type p "object" data], data)
      end
  end.

(** [accepts s p data]: parsing [data] against [s] at path [p] raises no
    issue. *)
Definition accepts (s : Schema) (p : list PathKey) (data : value) : Prop :=
  fst (parse s p data) = [].

(** [schema.safeParse(data)]. *)
Definition zod (s : Schema) : ZodSchema value :=
  {| safeParse := fun data =>
       match parse s [] data with
       | ([], out) => Success out
       | (errors, _) => Failure errors
       end |}.

End Parsing.

(** [.success] of a parse result. *)
Definition success {T} (r : SafeParseReturnType T) : bool :=
  match r with
  | Success _ => true
  | Failure _ => false
  end.

End Zod.

(* ================================================================== *)
(** * The repository's schemas, type guards and validators *)
(* ================================================================== *)

Module Types.
Import Js Zod.

Local Open Scope string_scope.

(** ** [src/types/core.ts] *)

Definition UserSchema : Schema :=
  ZObject [
    ("id", ZString []);
    ("email", ZString [Email]);
    ("displayName", ZString []);
    ("avatarUrl", ZOptional (ZString [Url]));
    ("accountId", ZString []);
    ("timeZone", ZOptional (ZString []));
    ("active", ZBoolean)
  ].

Definition IssueSchema : Schema :=
  ZObject [
    ("id", ZString []);
    ("key", ZString []);
    ("summary", ZString []);
    ("description", ZOptional (ZString []));
    ("issueType", ZObject [
       ("id", ZString []);
       ("name", ZString []);
       ("iconUrl", ZOptional (ZString [Url]))
     ]);
    ("status", ZObject [
       ("id", ZString []);
       ("name", ZString []);
       ("statusCategory", ZObject [
          ("id", ZString []);
          ("name", ZString []);
          ("colorName", ZString [])
        ])
     ]);
    ("priority", ZOptional (ZObject [
       ("id", ZString []);
       ("name", ZString []);
       ("iconUrl", ZOptional (ZString [Url]))
     ]));
    ("assignee", ZOptional UserSchema);
    ("reporter", ZOptional UserSchema);
    ("project", ZObject [
       ("id", ZString []);
       ("key", ZString []);
       ("name", ZString [])
     ]);
    ("created", ZString []);
    ("updated", ZString [])
  ].

Definition TimesheetEntrySchema : Schema :=
  ZObject [
    ("id", ZString []);
    ("issueId", ZString []);
    ("issue", IssueSchema);
    ("author", UserSchema);
    ("timeSpentSeconds", ZNumber [Positive]);
    ("timeSpentHours", ZNumber [Positive]);
    ("description", ZOptional (ZString []));
    ("started", ZString []);
    ("created", ZString []);
    ("updated", ZString []);
    ("project", ZObject [
       ("id", ZString []);
       ("key", ZString []);
       ("name", ZString [])
     ]);
    ("worklogId", ZString [])
  ].

(** ** [src/types/filtering.ts] *)

Definition DateRangeFilterSchema : Schema :=
  ZObject [
    ("startDate", ZString []);
    ("endDate", ZString []);
    ("type", ZEnum ["custom"; "today"; "yesterday"; "thisWeek"; "lastWeek";
                    "thisMonth"; "lastMonth"])
  ].

Definition ProjectFilterSchema : Schema :=
  ZObject [
    ("selectedProjectIds", ZArray (ZString []));
    ("includeInactive", ZBoolean)
  ].

Definition UserFilterSchema : Schema :=
  ZObject [
    ("selectedUserIds", ZArray (ZString []));
    ("includeInactive", ZBoolean)
  ].

Definition IssueTypeFilterSchema : Schema :=
  ZObject [ ("selectedIssueTypeIds", ZArray (ZString [])) ].

Definition StatusFilterSchema : Schema :=
  ZObject [
    ("selectedStatusIds", ZArray (ZString []));
    ("includeResolved", ZBoolean)
  ].

Definition TextFilterSchema : Schema :=
  ZObject [
    ("searchText", ZString []);
    ("searchInDescription", ZBoolean);
    ("searchInIssueSummary", ZBoolean);
    ("searchInIssueKey", ZBoolean);
    ("caseSensitive", ZBoolean)
  ].

Definition FilterStateSchema : Schema :=
  ZObject [
    ("dateRange", DateRangeFilterSchema);
    ("projects", ProjectFilterSchema);
    ("users", UserFilterSchema);
    ("issueTypes", IssueTypeFilterSchema);
    ("statuses", StatusFilterSchema);
    ("textSearch", TextFilterSchema);
    ("minHours", ZOptional (ZNumber [Positive]));
    ("maxHours", ZOptional (ZNumber [Positive]))
  ].

(** ** [src/types/grouping.ts] *)

Definition dimensions : list string :=
  ["project"; "user"; "issueType"; "status"; "date"; "issue"].
Definition dateGroupingTypes : list string :=
  ["day"; "week"; "month"; "quarter"; "year"].
Definition sortOrders : list string := ["asc"; "desc"].
Definition sortBys : list string := ["name"; "hours"; "count"; "date"].

Definition GroupingDimensionSchema : Schema := ZEnum dimensions.
Definition DateGroupingTypeSchema : Schema := ZEnum dateGroupingTypes.
Definition SortOrderSchema : Schema := ZEnum sortOrders.
Definition SortBySchema : Schema := ZEnum sortBys.

Definition GroupingLevelSchema : Schema :=
  ZObject [
    ("dimension", GroupingDimensionSchema);
    ("sortBy", SortBySchema);
    ("sortOrder", SortOrderSchema);
    ("dateGroupingType", ZOptional DateGroupingTypeSchema);
    ("expanded", ZBoolean)
  ].

Definition GroupingConfigSchema : Schema :=
  ZObject [
    ("levels", ZArray GroupingLevelSchema);
    ("showSubtotals", ZBoolean);
    ("showGrandTotal", ZBoolean);
    ("collapseEmptyGroups", ZBoolean)
  ].

(** ** [src/types/api.ts] *)

Definition TimesheetsRequestSchema : Schema :=
  ZObject [
    ("filters", ZAny);
    ("grouping", ZAny);
    ("page", ZOptional (ZNumber [Positive]));
    ("limit", ZOptional (ZNumber [Positive; Max 1000]));
    ("includeIssueDetails", ZOptional ZBoolean)
  ].

Section Guards.
Context {formats : Formats}.

(** ** Type guards *)

Definition isTimesheetEntry (obj : value) : bool :=
  success (safeParse (zod TimesheetEntrySchema) obj).

Definition isFilterState (obj : value) : bool :=
  success (safeParse (zod FilterStateSchema) obj).

Definition isGroupingConfig (obj : value) : bool :=
  success (safeParse (zod GroupingConfigSchema) obj).

Definition isTimesheetsRequest (obj : value) : bool :=
  success (safeParse (zod TimesheetsRequestSchema) obj).

End Guards.

End Types.

(* ================================================================== *)
(** * Validation utilities: [validateData] and its instances *)
(* ================================================================== *)

Module Validation.
Import Js Zod Types.

Local Open Scope string_scope.
Local Infix "+:+" := String.append (at level 60, right associativity).

(** A step of a path as [Array.prototype.join] prints it. *)
Definition path_key_string (k : PathKey) : string :=
  match k with
  | PKey name => name
  | PIndex i => string_of_list_ascii (Chars.decimal i)
  end.

(** [`${err.path.join('.')}: ${err.message}`]. *)
Definition issue_line (err : ZodIssue) : string :=
  String.concat "." (map path_key_string (path err)) +:+ ": " +:+ message err.

(** The joined list of [path: message] pairs. *)
Definition errorDetails (errors : list ZodIssue) : string :=
  String.concat ", " (map issue_line errors).

(** The optional [errorMessage] is used when it is truthy: given and not
    the empty string. *)
Definition heading (errorMessage : option string) : string :=
  match errorMessage with
  | Some "" | None => "Validation failed"
  | Some m => m
  end.

Definition validateData {T} (schema : ZodSchema T) (data : value)
  (errorMessage : option string) : Completion T :=
  let result := safeParse schema data in
  match result with
  | Failure errors =>
      Throw (heading errorMessage +:+ ": " +:+ errorDetails errors)
  | Success d => Return d
  end.

Section Validators.
Context {formats : Formats}.

Definition validateFilterState (data : value) : Completion value :=
  validateData (zod FilterStateSchema) data (Some "Invalid filter state").

Definition validateGroupingConfig (data : value) : Completion value :=
  validateData (zod GroupingConfigSchema) data
    (Some "Invalid grouping configuration").

Definition validateTimesheetEntry (data : value) : Completion value :=
  validateData (zod TimesheetEntrySchema) data
    (Some "Invalid timesheet entry").

End Validators.

End Validation.

(* ================================================================== *)
(** * Properties of validated data, and sample data *)
(* ================================================================== *)

Module Shapes.
Import Js Zod Types.

Local Open Scope string_scope.

(** ** Grouping configurations *)

(** The level's dimension is one of
    project | user | issueType | status | date | issue. *)
Definition dimension_known (lvl : value) : Prop :=
  exists s, field lvl "dimension" = VStr s /\ In s dimensions.

(** The level sets [dateGroupingType] while its dimension is not
    ['date']. *)
Definition date_type_without_date (lvl : value) : Prop :=
  field lvl "dateGroupingType" <> VUndefined
  /\ field lvl "dimension" <> VStr "date".

(** The level has dimension ['date'] and no [dateGroupingType]. *)
Definition date_without_date_type (lvl : value) : Prop :=
  field lvl "dimension" = VStr "date"
  /\ field lvl "dateGroupingType" = VUndefined.

(** A malformed configuration, as the specification lists the cases. *)
Definition malformed (config : value) : Prop :=
  exists levels lvl,
    field config "levels" = VArr levels /\ In lvl levels /\
    (~ dimension_known lvl \/ date_type_without_date lvl
     \/ date_without_date_type lvl).

Definition groupingLevel (dimension : string) (dateGroupingType : option string)
  : value :=
  VObj ([("dimension", VStr dimension);
         ("sortBy", VStr "name");
         ("sortOrder", VStr "asc")]
        ++ match dateGroupingType with
           | Some t => [("dateGroupingType", VStr t)]
           | None => []
           end
        ++ [("expanded", VBool true)])%list.

Definition groupingConfig (levels : list value) : value :=
  VObj [("levels", VArr levels);
        ("showSubtotals", VBool true);
        ("showGrandTotal", VBool true);
        ("collapseEmptyGroups", VBool true)].

(** The two configurations the grouping claims are tried on: a level
    that groups by project and still names a date bucket, and a level
    that groups by date and names none. *)
Definition project_by_day : value :=
  groupingConfig [groupingLevel "project" (Some "day")].

Definition date_without_type : value :=
  groupingConfig [groupingLevel "date" None].

Definition unknown_dimension : value :=
  groupingConfig [groupingLevel "priority" None].

(** ** Timesheet entries *)

(** [timeSpentHours] is [timeSpentSeconds / 3600] up to [tolerance]. *)
Definition hours_derived (tolerance : Q) (entry : value) : Prop :=
  exists s h,
    field entry "timeSpentSeconds" = VNum (Fin s)
    /\ field entry "timeSpentHours" = VNum (Fin h)
    /\ Qabs (h - s / 3600) <= tolerance.

Definition sample_user : value :=
  VObj [("id", VStr "u1");
        ("email", VStr "dev@example.com");
        ("displayName", VStr "Dev");
        ("accountId", VStr "acc-1");
        ("active", VBool true)].

Definition sample_project : value :=
  VObj [("id", VStr "10000"); ("key", VStr "ABC"); ("name", VStr "Alpha")].

Definition sample_issue : value :=
  VObj [("id", VStr "20000");
        ("key", VStr "ABC-1");
        ("summary", VStr "Fix the build");
        ("issueType", VObj [("id", VStr "1"); ("name", VStr "Bug")]);
        ("status",
         VObj [("id", VStr "3"); ("name", VStr "In Progress");
               ("statusCategory",
                VObj [("id", VStr "4"); ("name", VStr "In Progress");
                      ("colorName", VStr "yellow")])]);
        ("project", sample_project);
        ("created", VStr "2024-01-15T09:00:00.000Z");
        ("updated", VStr "2024-01-15T09:00:00.000Z")].

Definition sample_entry (seconds hours : Q) : value :=
  VObj [("id", VStr "w1");
        ("issueId", VStr "20000");
        ("issue", sample_issue);
        ("author", sample_user);
        ("timeSpentSeconds", VNum (Fin seconds));
        ("timeSpentHours", VNum (Fin hours));
        ("started", VStr "2024-01-15");
        ("created", VStr "2024-01-15T09:00:00.000Z");
        ("updated", VStr "2024-01-15T09:00:00.000Z");
        ("project", sample_project);
        ("worklogId", VStr "30000")].

(** A format checker for the sample data: it accepts the one address the
    sample user has. *)
Definition sample_formats : Formats :=
  {| is_email := fun s => String.eqb s "dev@example.com";
     is_url := fun _ => false |}.

(** ** Requests *)

(** [page], when present, is a positive number. *)
Definition page_ok (v : value) : Prop :=
  v = VUndefined \/ exists n, v = VNum n /\ gt0 n = true.

(** [limit], when present, is a positive number not exceeding 1000. *)
Definition limit_ok (v : value) : Prop :=
  v = VUndefined \/
  exists n, v = VNum n /\ gt0 n = true /\ le_num n 1000 = true.

Definition request (filters grouping : value) : value :=
  VObj [("filters", filters); ("grouping", grouping)].

End Shapes.

(* ================================================================== *)
(** * Entities ([src/types/core.ts]) as records *)
(* ================================================================== *)

(** The interfaces of [core.ts], with the fields the grouping reads. *)
Module User.
Record t : Type := { id : string; displayName : string }.
End User.

Module Project.
Record t : Type := { id : string; key : string; name : string }.
End Project.

Module Issue.
Record t : Type := {
  id : string;
  key : string;
  issueTypeId : string;
  issueTypeName : string;
  statusId : string;
  statusName : string
}.
End Issue.

Module TimesheetEntry.
(** [author] is optional here: the specification gives the builder a
    policy for an entry whose author is absent. *)
Record t : Type := {
  id : string;
  issue : Issue.t;
  author : option User.t;
  timeSpentSeconds : Q;
  timeSpentHours : Q;
  started : string;
  project : Project.t
}.
End TimesheetEntry.

(* ================================================================== *)
(** * Grouping ([src/types/grouping.ts]) and the group tree builder *)
(* ================================================================== *)

Module Grouping.

Local Open Scope string_scope.
Local Infix "+:+" := String.append (at level 60, right associativity).

Inductive GroupingDimension : Type :=
| project | user | issueType | status | date | issue.

Inductive DateGroupingType : Type := day | week | month | quarter | year.

Inductive SortOrder : Type := asc | desc.

Inductive SortBy : Type := by_name | by_hours | by_count | by_date.

Record GroupingLevel : Type := {
  dimension : GroupingDimension;
  sortBy : SortBy;
  sortOrder : SortOrder;
  dateGroupingType : option DateGroupingType;
  expanded : bool
}.

Record GroupingConfig : Type := {
  levels : list GroupingLevel;
  showSubtotals : bool;
  showGrandTotal : bool;
  collapseEmptyGroups : bool
}.

(** [GroupNode]; the optional [metadata], which only serves rendering, is
    left out. *)
Inductive GroupNode : Type :=
  mkGroupNode (id : string) (node_dimension : GroupingDimension)
    (value : string) (displayName : string) (level : nat)
    (totalHours : Q) (entryCount : nat) (children : list GroupNode)
    (entries : list string) (isExpanded : bool).

Definition id (n : GroupNode) : string :=
  let 'mkGroupNode i _ _ _ _ _ _ _ _ _ := n in i.
Definition value (n : GroupNode) : string :=
  let 'mkGroupNode _ _ v _ _ _ _ _ _ _ := n in v.
Definition displayName (n : GroupNode) : string :=
  let 'mkGroupNode _ _ _ d _ _ _ _ _ _ := n in d.
Definition level (n : GroupNode) : nat :=
  let 'mkGroupNode _ _ _ _ l _ _ _ _ _ := n in l.
Definition totalHours (n : GroupNode) : Q :=
  let 'mkGroupNode _ _ _ _ _ h _ _ _ _ := n in h.
Definition entryCount (n : GroupNode) : nat :=
  let 'mkGroupNode _ _ _ _ _ _ c _ _ _ := n in c.
Definition children (n : GroupNode) : list GroupNode :=
  let 'mkGroupNode _ _ _ _ _ _ _ ch _ _ := n in ch.
Definition entries (n : GroupNode) : list string :=
  let 'mkGroupNode _ _ _ _ _ _ _ _ es _ := n in es.

Definition sumQ (l : list Q) : Q := fold_right Qplus 0 l.
Definition sum_nat (l : list nat) : nat := fold_right Nat.add O l.

(** The entries of a node's subtree: its own and its descendants'. *)
Fixpoint subtree_entries (n : GroupNode) : list string :=
  let 'mkGroupNode _ _ _ _ _ _ _ ch es _ := n in
  (es ++ flat_map subtree_entries ch)%list.

(** Every node of a tree, and of a forest. *)
Fixpoint nodes_of (n : GroupNode) : list GroupNode :=
  let 'mkGroupNode _ _ _ _ _ _ _ ch _ _ := n in
  n :: flat_map nodes_of ch.

Definition forest_nodes (forest : list GroupNode) : list GroupNode :=
  flat_map nodes_of forest.

(** The hours of the entry of [E] with identifier [i]. *)
Definition hours_of (E : list TimesheetEntry.t) (i : string) : Q :=
  match find (fun e => String.eqb (TimesheetEntry.id e) i) E with
  | Some e => TimesheetEntry.timeSpentHours e
  | None => 0
  end.

(** The aggregate invariants of a node, over the entries [E] given to the
    builder, the hours of an owned entry looked up by its identifier. *)
Definition tolerance : Q := 1 # 1000000000.

Definition aggregates_ok (E : list TimesheetEntry.t) (n : GroupNode) : Prop :=
  totalHours n ==
    sumQ (map totalHours (children n)) + sumQ (map (hours_of E) (entries n))
  /\ Qabs (totalHours n - sumQ (map (hours_of E) (subtree_entries n)))
     <= tolerance
  /\ entryCount n = List.length (subtree_entries n).

(** The same invariants without the lookup: [own] and [sub] are the
    entries of [E] that the node owns and that its subtree holds, which
    the node lists by identifier. *)
Definition owned_aggregates (E : list TimesheetEntry.t) (n : GroupNode)
  : Prop :=
  exists own sub : list TimesheetEntry.t,
    incl own E /\ incl sub E
    /\ entries n = map TimesheetEntry.id own
    /\ subtree_entries n = map TimesheetEntry.id sub
    /\ totalHours n ==
       sumQ (map totalHours (children n))
       + sumQ (map TimesheetEntry.timeSpentHours own)
    /\ Qabs (totalHours n - sumQ (map TimesheetEntry.timeSpentHours sub))
       <= tolerance
    /\ entryCount n = List.length sub.

(** A node's aggregates are those of its children plus its own entries. *)
Definition locally_ok (E : list TimesheetEntry.t) (n : GroupNode) : Prop :=
  exists own : list TimesheetEntry.t,
    incl own E
    /\ entries n = map TimesheetEntry.id own
    /\ totalHours n ==
       sumQ (map totalHours (children n))
       + sumQ (map TimesheetEntry.timeSpentHours own)
    /\ entryCount n =
       (sum_nat (map entryCount (children n)) + List.length own)%nat.

(** A node's aggregates are those of the entries [sub] of its subtree. *)
Definition subtree_ok (E : list TimesheetEntry.t) (n : GroupNode) : Prop :=
  exists sub : list TimesheetEntry.t,
    incl sub E
    /\ subtree_entries n = map TimesheetEntry.id sub
    /\ totalHours n == sumQ (map TimesheetEntry.timeSpentHours sub)
    /\ entryCount n = List.length sub.

Section Builder.

(** Modelled from the spec: the date buckets of the absent builder, the
    start of the bucket of a work date ([started]) for a granularity; the
    specification names the buckets
    (the day itself, the ISO week's start, the first of the month, of the
    quarter, of the year) and leaves the calendar arithmetic, and the
    granularity of a date level without [dateGroupingType], open. *)
Variable bucket_start : option DateGroupingType -> string -> string.

(** Modelled from the spec: step 1 of the absent builder, the grouping
    key of an entry at a level.  An entry without author falls into the
    bucket "Unassigned". *)
Definition key_of (lvl : GroupingLevel) (e : TimesheetEntry.t) : string :=
  match dimension lvl with
  | project => Project.id (TimesheetEntry.project e)
  | user =>
      match TimesheetEntry.author e with
      | Some u => User.id u
      | None => "Unassigned"
      end
  | issueType => Issue.issueTypeId (TimesheetEntry.issue e)
  | status => Issue.statusId (TimesheetEntry.issue e)
  | issue => Issue.id (TimesheetEntry.issue e)
  | date => bucket_start (dateGroupingType lvl) (TimesheetEntry.started e)
  end.

(** Modelled from the spec: the display value of a key (step 1 of the
    absent builder), taken from the first entry seen with the key. *)
Definition display_of (lvl : GroupingLevel) (e : TimesheetEntry.t) : string :=
  match dimension lvl with
  | project => Project.name (TimesheetEntry.project e)
  | user =>
      match TimesheetEntry.author e with
      | Some u => User.displayName u
      | None => "Unassigned"
      end
  | issueType => Issue.issueTypeName (TimesheetEntry.issue e)
  | status => Issue.statusName (TimesheetEntry.issue e)
  | issue => Issue.key (TimesheetEntry.issue e)
  | date => bucket_start (dateGroupingType lvl) (TimesheetEntry.started e)
  end.

(** Modelled from the spec: step 2 of the absent builder, the buckets of
    a set of entries by key, in the order in which the keys are first
    seen; an entry joins the bucket of its key at the end. *)
Fixpoint add_to_bucket (k : string) (e : TimesheetEntry.t)
  (buckets : list (string * list TimesheetEntry.t))
  : list (string * list TimesheetEntry.t) :=
  match buckets with
  | [] => [(k, [e])]
  | (k', b) :: rest =>
      if String.eqb k k' then (k', (b ++ [e])%list) :: rest
      else (k', b) :: add_to_bucket k e rest
  end.

(** Modelled from the spec: the partition of step 2 of the absent
    builder, one entry after the other. *)
Definition partition_by (f : TimesheetEntry.t -> string)
  (es : list TimesheetEntry.t) : list (string * list TimesheetEntry.t) :=
  fold_left (fun buckets e => add_to_bucket (f e) e buckets) es [].

(** Modelled from the spec: step 4 of the absent builder, the order of
    siblings at a level: by display value, by total hours, by entry count
    or by bucket start. *)
Definition key_leb (criterion : SortBy) (a b : GroupNode) : bool :=
  match criterion with
  | by_name => String.leb (displayName a) (displayName b)
  | by_hours => Qle_bool (totalHours a) (totalHours b)
  | by_count => Nat.leb (entryCount a) (entryCount b)
  | by_date => String.leb (value a) (value b)
  end.

(** Modelled from the spec: the direction of the order of step 4 of the
    absent builder. *)
Definition sibling_leb (lvl : GroupingLevel) (a b : GroupNode) : bool :=
  match sortOrder lvl with
  | asc => key_leb (sortBy lvl) a b
  | desc => key_leb (sortBy lvl) b a
  end.

(** Modelled from the spec: the sort of step 4 of the absent builder, a
    stable insertion sort: of two siblings with equal keys the one seen
    first stays first. *)
Fixpoint insert_sibling (leb : GroupNode -> GroupNode -> bool)
  (x : GroupNode) (l : list GroupNode) : list GroupNode :=
  match l with
  | [] => [x]
  | y :: l' => if leb x y then x :: y :: l' else y :: insert_sibling leb x l'
  end.

(** Modelled from the spec: sorting the siblings of one level (step 4 of
    the absent builder). *)
Definition sort_siblings (lvl : GroupingLevel) (l : list GroupNode)
  : list GroupNode :=
  fold_right (insert_sibling (sibling_leb lvl)) [] l.

(** Modelled from the spec: the name of a dimension inside a node
    identifier; the absent builder has to make identifiers unique within
    the forest, here by the path of keys from the root. *)
Definition dimension_label (d : GroupingDimension) : string :=
  match d with
  | project => "project"
  | user => "user"
  | issueType => "issueType"
  | status => "status"
  | date => "date"
  | issue => "issue"
  end.

(** Modelled from the spec: steps 2 to 4 of the absent builder.  Each bucket of
    a level becomes one node; the next levels partition the bucket's
    entries, and when the levels are exhausted the entries are the node's
    own.  A node's aggregates are computed once its children and its own
    entries are final; siblings are then sorted. *)
Fixpoint build_levels (lvls : list GroupingLevel) (depth : nat)
  (parent : string) (es : list TimesheetEntry.t) : list GroupNode :=
  match lvls with
  | [] => []
  | lvl :: rest =>
      sort_siblings lvl
        (map (fun bucket : string * list TimesheetEntry.t =>
                let (k, bes) := bucket in
                let node_id :=
                  parent +:+ "/" +:+ dimension_label (dimension lvl)
                  +:+ ":" +:+ k in
                let kids := build_levels rest (S depth) node_id bes in
                let own := match rest with [] => bes | _ :: _ => [] end in
                mkGroupNode node_id (dimension lvl) k
                  (match bes with
                   | e :: _ => display_of lvl e
                   | [] => k
                   end)
                  depth
                  (sumQ (map totalHours kids)
                   + sumQ (map TimesheetEntry.timeSpentHours own))
                  (sum_nat (map entryCount kids) + List.length own)
                  kids
                  (map TimesheetEntry.id own)
                  (expanded lvl))
             (partition_by (key_of lvl) es))
  end.

(** Modelled from the spec: the test of step 5 of the absent builder, a
    node with at least one entry in its subtree. *)
Definition nonempty_node (k : GroupNode) : bool :=
  negb (Nat.eqb (entryCount k) O).

(** Modelled from the spec: step 5 of the absent builder, pruning the
    nodes without entries, from the leaves upwards. *)
Fixpoint prune (n : GroupNode) : GroupNode :=
  let 'mkGroupNode i d v dn l h c ch es x := n in
  mkGroupNode i d v dn l h c (filter nonempty_node (map prune ch)) es x.

Definition prune_forest (forest : list GroupNode) : list GroupNode :=
  filter nonempty_node (map prune forest).

(** Modelled from the spec: the single synthetic root the absent builder
    makes for an ungrouped configuration, which owns every entry; the
    specification names no dimension for it, [project] stands in. *)
Definition ungrouped_root (es : list TimesheetEntry.t) : GroupNode :=
  mkGroupNode "root" project "" "All entries" O
    (sumQ (map TimesheetEntry.timeSpentHours es)) (List.length es) []
    (map TimesheetEntry.id es) true.

(** Modelled from the spec: the group tree builder, absent from the
    repository.  The display flags of step 6 change no data. *)
Definition build (E : list TimesheetEntry.t) (G : GroupingConfig)
  : list GroupNode :=
  match levels G with
  | [] => [ungrouped_root E]
  | lvls =>
      let forest := build_levels lvls O "" E in
      if collapseEmptyGroups G then prune_forest forest else forest
  end.

End Builder.

(** ** Scenario A of the specification *)

Definition entry_in (i : string) (proj : string) (hours : Q)
  : TimesheetEntry.t :=
  {| TimesheetEntry.id := i;
     TimesheetEntry.issue :=
       {| Issue.id := "20000"; Issue.key := "X-1";
          Issue.issueTypeId := "1"; Issue.issueTypeName := "Bug";
          Issue.statusId := "3"; Issue.statusName := "Open" |};
     TimesheetEntry.author :=
       Some {| User.id := "u1"; User.displayName := "Dev" |};
     TimesheetEntry.timeSpentSeconds := hours * 3600;
     TimesheetEntry.timeSpentHours := hours;
     TimesheetEntry.started := "2024-01-15";
     TimesheetEntry.project :=
       {| Project.id := proj; Project.key := proj; Project.name := proj |} |}.

Definition scenario_A_entries : list TimesheetEntry.t :=
  [entry_in "w1" "B" 1; entry_in "w2" "A" 2; entry_in "w3" "A" 3].

Definition by_project_name : GroupingConfig :=
  {| levels := [ {| dimension := project; sortBy := by_name;
                    sortOrder := asc; dateGroupingType := None;
                    expanded := true |} ];
     showSubtotals := true; showGrandTotal := true;
     collapseEmptyGroups := true |}.

(** Buckets by the day itself, for the examples. *)
Definition by_day (g : option DateGroupingType) (started : string) : string :=
  started.

End Grouping.

(* ================================================================== *)
(** * Time strings: what [formatHoursAsJiraTime] writes *)
(* ================================================================== *)

Module JiraShapes.
Import Chars Jira.


(** A time string given by its components, in the order written. *)
Definition time_string (ts : list (N * ascii)) : string :=
  string_of_list_ascii (join [" "] (map render ts)).


End JiraShapes.

(* ================================================================== *)
(** * Validation utilities: [sanitizeSearchText] *)
(* ================================================================== *)

Module SearchText.
Import Chars.

Local Open Scope N_scope.

(** The white space and line terminators [String.prototype.trim] strips,
    among the characters below 256: tab, line feed, vertical tab, form
    feed, carriage return, space and no-break space. *)
Definition is_space (c : ascii) : bool :=
  let n := N_of_ascii c in
  ((9 <=? n) && (n <=? 13)) || (n =? 32) || (n =? 160).

Fixpoint trim_start (s : chars) : chars :=
  match s with
  | [] => []
  | c :: s' => if is_space c then trim_start s' else s
  end.

(** Dropping the white space at the end: a character goes when it is
    white space and nothing is left after it. *)
Fixpoint trim_end (s : chars) : chars :=
  match s with
  | [] => []
  | c :: s' =>
      match trim_end s' with
      | [] => if is_space c then [] else [c]
      | t => c :: t
      end
  end.

(** [String.prototype.trim]. *)
Definition trim (s : chars) : chars := trim_end (trim_start s).

Definition is_angle (c : ascii) : bool := Ascii.eqb c "<" || Ascii.eqb c ">".

(** [.replace(/[<>]/g, '')]. *)
Definition remove_angles (s : chars) : chars :=
  filter (fun c => negb (is_angle c)) s.

Definition sanitizeSearchText_chars (text : chars) : chars :=
  remove_angles (trim text).

Definition sanitizeSearchText (text : string) : string :=
  string_of_list_ascii (sanitizeSearchText_chars (list_ascii_of_string text)).



End SearchText.

(* ================================================================== *)
(** * Names [sanitizeFileName] leaves alone *)
(* ================================================================== *)

Module FileNameShapes.
Import Chars Sanitize.

(** A name made of characters of [[a-zA-Z0-9.-]] and single underscores,
    with no underscore at either end. *)
Definition well_shaped (s : chars) : Prop :=
  Forall name_char s
  /\ no_double_us s = true
  /\ starts_with_us s = false
  /\ ends_with_us s = false.

(** The characters of the class [[a-zA-Z0-9.-]] in a string, in order. *)
Definition allowed_chars (s : chars) : chars := filter allowed s.

End FileNameShapes.

(* ================================================================== *)
(** * zod: [.partial()], and schemas with distinct keys *)
(* ================================================================== *)

Module ZodMore.
Import Js Zod.

Local Open Scope string_scope.

(** [schema.partial()] of an object schema: every property of the shape
    becomes optional; the schemas of the properties themselves are not
    changed (the operation is shallow). *)
Definition partial_shape (shape : list (string * Schema))
  : list (string * Schema) :=
  map (fun ks => (fst ks, ZOptional (snd ks))) shape.

Definition partial (s : Schema) : Schema :=
  match s with
  | ZObject shape => ZObject (partial_shape shape)
  | _ => s
  end.

(** The keys of a list are pairwise distinct. *)
Fixpoint distinct (keys : list string) : bool :=
  match keys with
  | [] => true
  | k :: keys' => negb (existsb (String.eqb k) keys') && distinct keys'
  end.

(** Every object shape inside a schema has distinct keys, as the shape of
    an object literal has. *)
Fixpoint distinct_keys (s : Schema) : bool :=
  match s with
  | ZOptional inner => distinct_keys inner
  | ZArray element => distinct_keys element
  | ZObject shape =>
      distinct (map fst shape)
      && (fix all (sh : list (string * Schema)) : bool :=
            match sh with
            | [] => true
            | (_, sk) :: sh' => distinct_keys sk && all sh'
            end) shape
  | _ => true
  end.

Section Fields.
Context {formats : Formats}.

(** The parsed properties of an object, one for each key of the shape. *)
Definition parsed_fields (shape : list (string * Schema)) (p : list PathKey)
  (props : list (string * value)) : list (string * value) :=
  map (fun ks =>
         (fst ks,
          snd (parse (snd ks) (p ++ [PKey (fst ks)])%list
                 (get props (fst ks)))))
      shape.

(** What a schema accepts, and the value it returns, do not depend on the
    path at which the data is parsed. *)
Definition path_free (s : Schema) : Prop :=
  forall p q data,
    (accepts s p data -> accepts s q data)
    /\ snd (parse s p data) = snd (parse s q data).

(** Parsing the value a schema returned gives that value again. *)
Definition reparses (s : Schema) : Prop :=
  forall p q data,
    accepts s p data ->
    parse s q (snd (parse s p data)) = ([], snd (parse s p data)).

End Fields.

(** The keys of an object value. *)
Definition keys_of (x : value) : list string :=
  match x with
  | VObj props => map fst props
  | _ => []
  end.

End ZodMore.

(* ================================================================== *)
(** * The other schemas, guards and validators of the repository *)
(* ================================================================== *)

Module MoreTypes.
Import Js Zod ZodMore Types Validation.

Local Open Scope string_scope.

(** ** [src/types/core.ts] *)

Definition ProjectSchema : Schema :=
  ZObject [
    ("id", ZString []);
    ("key", ZString []);
    ("name", ZString []);
    ("description", ZOptional (ZString []));
    ("lead", ZOptional UserSchema);
    ("projectTypeKey", ZString []);
    ("avatarUrls", ZOptional (ZObject [
       ("16x16", ZOptional (ZString [Url]));
       ("24x24", ZOptional (ZString [Url]));
       ("32x32", ZOptional (ZString [Url]));
       ("48x48", ZOptional (ZString [Url]))
     ]));
    ("isSelected", ZBoolean);
    ("lastSyncedAt", ZOptional (ZString []))
  ].

(** ** [src/types/api.ts] *)

Definition RefreshDataRequestSchema : Schema :=
  ZObject [
    ("forceFullSync", ZOptional ZBoolean);
    ("projectIds", ZOptional (ZArray (ZString [])))
  ].

Definition ProjectConfigRequestSchema : Schema :=
  ZObject [ ("selectedProjectIds", ZArray (ZString [])) ].

Definition exportFormats : list string := ["csv"; "excel"; "pdf"].

Definition ExportRequestSchema : Schema :=
  ZObject [
    ("filters", ZAny);
    ("grouping", ZAny);
    ("format", ZEnum exportFormats);
    ("includeDetails", ZBoolean);
    ("fileName", ZOptional (ZString []))
  ].

(** ** [src/types/jira.ts] *)

Definition JiraAvatarUrlsSchema : Schema :=
  ZObject [
    ("16x16", ZString [Url]);
    ("24x24", ZString [Url]);
    ("32x32", ZString [Url]);
    ("48x48", ZString [Url])
  ].

Definition JiraUserSchema : Schema :=
  ZObject [
    ("accountId", ZString []);
    ("emailAddress", ZString [Email]);
    ("displayName", ZString []);
    ("active", ZBoolean);
    ("timeZone", ZOptional (ZString []));
    ("avatarUrls", JiraAvatarUrlsSchema)
  ].

Definition JiraProjectSchema : Schema :=
  ZObject [
    ("id", ZString []);
    ("key", ZString []);
    ("name", ZString []);
    ("description", ZOptional (ZString []));
    ("projectTypeKey", ZString []);
    ("lead", ZOptional JiraUserSchema);
    ("avatarUrls", JiraAvatarUrlsSchema)
  ].

Definition JiraIssueTypeSchema : Schema :=
  ZObject [
    ("id", ZString []);
    ("name", ZString []);
    ("description", ZString []);
    ("iconUrl", ZString [Url]);
    ("subtask", ZBoolean)
  ].

Definition JiraStatusSchema : Schema :=
  ZObject [
    ("id", ZString []);
    ("name", ZString []);
    ("description", ZString []);
    ("statusCategory", ZObject [
       ("id", ZString []);
       ("key", ZString []);
       ("colorName", ZString []);
       ("name", ZString [])
     ])
  ].

Definition JiraPrioritySchema : Schema :=
  ZObject [
    ("id", ZString []);
    ("name", ZString []);
    ("iconUrl", ZString [Url])
  ].

Definition JiraIssueSchema : Schema :=
  ZObject [
    ("id", ZString []);
    ("key", ZString []);
    ("fields", ZObject [
       ("summary", ZString []);
       ("description", ZOptional (ZObject [
          ("type", ZString []);
          ("version", ZNumber []);
          ("content", ZArray ZAny)
        ]));
       ("issuetype", JiraIssueTypeSchema);
       ("status", JiraStatusSchema);
       ("priority", ZOptional JiraPrioritySchema);
       ("assignee", ZOptional JiraUserSchema);
       ("reporter", ZOptional JiraUserSchema);
       ("project", JiraProjectSchema);
       ("created", ZString []);
       ("updated", ZString [])
     ])
  ].

Definition JiraWorklogSchema : Schema :=
  ZObject [
    ("id", ZString []);
    ("issueId", ZString []);
    ("author", JiraUserSchema);
    ("timeSpent", ZString []);
    ("timeSpentSeconds", ZNumber [Positive]);
    ("description", ZOptional (ZString []));
    ("started", ZString []);
    ("created", ZString []);
    ("updated", ZString [])
  ].

Section Guards.
Context {formats : Formats}.

Definition isUser (obj : value) : bool :=
  success (safeParse (zod UserSchema) obj).

Definition isProject (obj : value) : bool :=
  success (safeParse (zod ProjectSchema) obj).

Definition isIssue (obj : value) : bool :=
  success (safeParse (zod IssueSchema) obj).

Definition isRefreshDataRequest (obj : value) : bool :=
  success (safeParse (zod RefreshDataRequestSchema) obj).

Definition isProjectConfigRequest (obj : value) : bool :=
  success (safeParse (zod ProjectConfigRequestSchema) obj).

Definition isExportRequest (obj : value) : bool :=
  success (safeParse (zod ExportRequestSchema) obj).

Definition isJiraUser (obj : value) : bool :=
  success (safeParse (zod JiraUserSchema) obj).

Definition isJiraProject (obj : value) : bool :=
  success (safeParse (zod JiraProjectSchema) obj).

Definition isJiraWorklog (obj : value) : bool :=
  success (safeParse (zod JiraWorklogSchema) obj).

Definition isJiraIssue (obj : value) : bool :=
  success (safeParse (zod JiraIssueSchema) obj).

(** ** Validation utilities *)

Definition validateUser (data : value) : Completion value :=
  validateData (zod UserSchema) data (Some "Invalid user data").

Definition validateProject (data : value) : Completion value :=
  validateData (zod ProjectSchema) data (Some "Invalid project data").

Definition validateIssue (data : value) : Completion value :=
  validateData (zod IssueSchema) data (Some "Invalid issue data").

Definition validateTimesheetEntries (data : value) : Completion value :=
  validateData (zod (ZArray TimesheetEntrySchema)) data
    (Some "Invalid timesheet entries array").

Definition validateUsers (data : value) : Completion value :=
  validateData (zod (ZArray UserSchema)) data (Some "Invalid users array").

Definition validateProjects (data : value) : Completion value :=
  validateData (zod (ZArray ProjectSchema)) data
    (Some "Invalid projects array").

Definition validatePartialFilterState (data : value) : Completion value :=
  validateData (zod (partial FilterStateSchema)) data
    (Some "Invalid partial filter state").

Definition validatePartialGroupingConfig (data : value) : Completion value :=
  validateData (zod (partial GroupingConfigSchema)) data
    (Some "Invalid partial grouping configuration").

End Guards.

(** ** Default values *)

(** [createDefaultGroupingConfig()]. *)
Definition createDefaultGroupingConfig : value :=
  VObj [
    ("levels", VArr [
       VObj [("dimension", VStr "project");
             ("sortBy", VStr "name");
             ("sortOrder", VStr "asc");
             ("expanded", VBool true)]
     ]);
    ("showSubtotals", VBool true);
    ("showGrandTotal", VBool true);
    ("collapseEmptyGroups", VBool true)
  ].

(** [createDefaultFilterState()].  The function reads the clock twice,
    once for each bound of the date range; [startDay] and [endDay] are
    the two days read, as [toISOString().split('T')[0]] prints them. *)
Definition createDefaultFilterState (startDay endDay : string) : value :=
  VObj [
    ("dateRange", VObj [("startDate", VStr startDay);
                        ("endDate", VStr endDay);
                        ("type", VStr "today")]);
    ("projects", VObj [("selectedProjectIds", VArr []);
                       ("includeInactive", VBool false)]);
    ("users", VObj [("selectedUserIds", VArr []);
                    ("includeInactive", VBool false)]);
    ("issueTypes", VObj [("selectedIssueTypeIds", VArr [])]);
    ("statuses", VObj [("selectedStatusIds", VArr []);
                       ("includeResolved", VBool true)]);
    ("textSearch", VObj [("searchText", VStr "");
                         ("searchInDescription", VBool true);
                         ("searchInIssueSummary", VBool true);
                         ("searchInIssueKey", VBool true);
                         ("caseSensitive", VBool false)])
  ].

(** ** Labels ([src/types/grouping.ts]) *)

Definition getGroupingDimensionLabel (dimension : Grouping.GroupingDimension)
  : string :=
  match dimension with
  | Grouping.project => "Project"
  | Grouping.user => "User"
  | Grouping.issueType => "Issue Type"
  | Grouping.status => "Status"
  | Grouping.date => "Date"
  | Grouping.issue => "Issue"
  end.

Definition getDateGroupingTypeLabel (type : Grouping.DateGroupingType)
  : string :=
  match type with
  | Grouping.day => "Daily"
  | Grouping.week => "Weekly"
  | Grouping.month => "Monthly"
  | Grouping.quarter => "Quarterly"
  | Grouping.year => "Yearly"
  end.

(** ** Shapes of values *)

(** An optional property: absent ([undefined]) or satisfying [P]. *)
Definition optional (P : value -> Prop) (v : value) : Prop :=
  v = VUndefined \/ P v.

Definition is_string (v : value) : Prop := exists s, v = VStr s.
Definition is_boolean (v : value) : Prop := exists b, v = VBool b.
Definition is_object (v : value) : Prop := exists props, v = VObj props.

(** A string of a given list. *)
Definition one_of (values : list string) (v : value) : Prop :=
  exists s, v = VStr s /\ In s values.

(** An array whose items all satisfy [P]. *)
Definition array_of (P : value -> Prop) (v : value) : Prop :=
  exists items, v = VArr items /\ Forall P items.

(** Sample Jira data, and a format checker that accepts its one address
    and its one URL. *)
Definition jira_formats : Formats :=
  {| is_email := fun s => String.eqb s "dev@example.com";
     is_url := fun s => String.eqb s "https://example.com/a.png" |}.

Definition sample_jira_user : value :=
  VObj [("accountId", VStr "acc-1");
        ("emailAddress", VStr "dev@example.com");
        ("displayName", VStr "Dev");
        ("active", VBool true);
        ("avatarUrls",
         VObj [("16x16", VStr "https://example.com/a.png");
               ("24x24", VStr "https://example.com/a.png");
               ("32x32", VStr "https://example.com/a.png");
               ("48x48", VStr "https://example.com/a.png")])].

Definition sample_jira_worklog : value :=
  VObj [("id", VStr "30000");
        ("issueId", VStr "20000");
        ("author", sample_jira_user);
        ("timeSpent", VStr "2h 30m");
        ("timeSpentSeconds", VNum (Fin 9000));
        ("started", VStr "2024-01-15T09:00:00.000+0000");
        ("created", VStr "2024-01-15T12:00:00.000+0000");
        ("updated", VStr "2024-01-15T12:00:00.000+0000")].

(** An issue is at item [k] of [items], which the element schema [s]
    refuses. *)
Definition located {formats : Formats} (s : Schema) (items : list value)
  (e : ZodIssue) : Prop :=
  exists (k : nat) (item : value) (rest : list PathKey),
    nth_error items k = Some item
    /\ path e = PIndex (N.of_nat k) :: rest
    /\ ~ accepts s [] item.

(** A number greater than 0. *)
Definition positive_number (v : value) : Prop :=
  exists n, v = VNum n /\ gt0 n = true.

(** The default filter state with given dates and hour bounds. *)
Definition filter_state_with (startDate endDate : string)
  (minHours maxHours : number) : value :=
  VObj [
    ("dateRange", VObj [("startDate", VStr startDate);
                        ("endDate", VStr endDate);
                        ("type", VStr "custom")]);
    ("projects", VObj [("selectedProjectIds", VArr []);
                       ("includeInactive", VBool false)]);
    ("users", VObj [("selectedUserIds", VArr []);
                    ("includeInactive", VBool false)]);
    ("issueTypes", VObj [("selectedIssueTypeIds", VArr [])]);
    ("statuses", VObj [("selectedStatusIds", VArr []);
                       ("includeResolved", VBool true)]);
    ("textSearch", VObj [("searchText", VStr "");
                         ("searchInDescription", VBool true);
                         ("searchInIssueSummary", VBool true);
                         ("searchInIssueKey", VBool true);
                         ("caseSensitive", VBool false)]);
    ("minHours", VNum minHours);
    ("maxHours", VNum maxHours)
  ].

(** A grouping configuration around a given [levels] value. *)
Definition config_with (levels : value) : value :=
  VObj [("levels", levels);
        ("showSubtotals", VBool true);
        ("showGrandTotal", VBool true);
        ("collapseEmptyGroups", VBool true)].

(** The property names of [GroupingLevelSchema]. *)
Definition level_keys : list string :=
  ["dimension"; "sortBy"; "sortOrder"; "dateGroupingType"; "expanded"].

End MoreTypes.
Module JiraExamples.
Import Chars Jira.
Local Open Scope string_scope.

Example format_2h30 : formatHoursAsJiraTime (5 # 2) = "2h 30m".
Proof. reflexivity. Qed.

Example format_zero : formatHoursAsJiraTime 0 = "0m".
Proof. reflexivity. Qed.

Example format_rounds_up : formatHoursAsJiraTime (1999 # 1000) = "1h 60m".
Proof. reflexivity. Qed.

Example format_60m : formatHoursAsJiraTime (9999 # 10000) = "60m".
Proof. reflexivity. Qed.

Example format_1e21 :
  formatHoursAsJiraTime (inject_Z (10 ^ 21)) = "1e+21h".
Proof. vm_compute. reflexivity. Qed.

Example format_big :
  formatHoursAsJiraTime (inject_Z (10 ^ 21 - 1)) = "999999999999999999999h".
Proof. vm_compute. reflexivity. Qed.

Example format_exp :
  string_of_list_ascii (Number_toString (1234 * 10 ^ 20)) = "1.234e+23".
Proof. vm_compute. reflexivity. Qed.

Example parse_1d3h : parseJiraTimeSpent "1d 3h" == 11.
Proof. vm_compute. reflexivity. Qed.

Example parse_jira : jira_time (Some 1%N) None (Some 30%N) = "1d 30m".
Proof. reflexivity. Qed.

End JiraExamples.

(* ================================================================== *)
(** * Decimal numerals: printing and reading back *)
(* ================================================================== *)

Module CharsFacts.
Import Chars.

Local Open Scope N_scope.













(** A number below [10 ^ k] prints with at most [k] digits. *)
Lemma decimal_aux_length fuel : forall n acc (k : nat),
  n < 10 ^ N.of_nat (S k) ->
  (List.length (decimal_aux fuel n acc) <= S k + List.length acc)%nat.
Proof.
  induction fuel as [|f IH]; intros n acc k Hn; [simpl; lia|].
  cbn [decimal_aux].
  destruct (N.eqb_spec (n / 10) 0) as [Hz|Hz]; [simpl; lia|].
  destruct k as [|k].
  - exfalso. apply Hz. apply N.div_small. exact Hn.
  - specialize (IH (n / 10) (digit_char (n mod 10) :: acc) k).
    simpl List.length in IH.
    assert (n / 10 < 10 ^ N.of_nat (S k)).
    { apply N.Div0.div_lt_upper_bound.
      rewrite <- N.pow_succ_r', <- Nat2N.inj_succ. exact Hn. }
    specialize (IH H). lia.
Qed.

Lemma Number_toString_plain n :
  n < 10 ^ 21 -> Number_toString n = decimal n.
Proof.
  intros Hn. unfold Number_toString.
  pose proof (decimal_aux_length (S (N.to_nat (N.log2 n))) n [] 20 Hn) as Hl.
  fold (decimal n) in Hl. simpl in Hl.
  destruct (Nat.leb_spec (List.length (decimal n)) 21); [reflexivity | lia].
Qed.

End CharsFacts.

(* ================================================================== *)
(** * Searching a time string for a component *)
(* ================================================================== *)

Module RegexFacts.
Import Chars Regex Jira CharsFacts.





Lemma regex_match_skip c u rest :
  is_digit u = false -> regex_match c (u :: rest) = regex_match c rest.
Proof. intros Hu. cbn [regex_match match_here]. rewrite Hu. reflexivity. Qed.


(** The capture group of a match is a non-empty run of digits, so
    [parseInt] of it is never NaN. *)
Lemma match_here_capture c s g :
  match_here c s = Some g -> digits g /\ g <> [].
Proof.
  revert g. induction s as [|d s IH]; intros g H; [discriminate|].
  cbn [match_here] in H. destruct (is_digit d) eqn:Hd; [|discriminate].
  destruct (match_here c s) as [g'|].
  - injection H as <-. destruct (IH g' eq_refl) as [Hg _].
    split; [constructor; assumption | discriminate].
  - destruct s as [|x s']; [discriminate|].
    destruct (Ascii.eqb x c); [|discriminate].
    injection H as <-. split; [repeat constructor; assumption | discriminate].
Qed.

Lemma regex_match_capture c s g :
  regex_match c s = Some g -> digits g /\ g <> [].
Proof.
  induction s as [|d s IH]; cbn [regex_match]; intros H.
  - cbn in H. discriminate.
  - destruct (match_here c (d :: s)) as [g'|] eqn:Hm.
    + injection H as <-. eapply match_here_capture; eassumption.
    + apply IH. exact H.
Qed.


End RegexFacts.

(* ================================================================== *)
(** * [parseJiraTimeSpent] and [formatHoursAsJiraTime] *)
(* ================================================================== *)

Module JiraFacts.
Import Chars Regex Jira CharsFacts RegexFacts.

Local Open Scope Q_scope.





(** ** The round trip *)

Section RoundTrip.
Variable h : Q.
Hypothesis h_nonneg : 0 <= h.
Hypothesis h_below : h < inject_Z (10 ^ 21).

Let w : Z := Math_floor h.
Let m : Z := Math_round ((h - inject_Z w) * 60).

Lemma whole_bounds : inject_Z w <= h /\ h < inject_Z w + 1.
Proof.
  subst w. unfold Math_floor. split; [apply Qfloor_le|].
  pose proof (Qlt_floor h) as H. rewrite inject_Z_plus in H. exact H.
Qed.

Lemma whole_range : (0 <= w < 10 ^ 21)%Z.
Proof.
  destruct whole_bounds as [Hl Hu]. split.
  - change 0%Z with (Qfloor 0). apply Qfloor_resp_le. exact h_nonneg.
  - rewrite Zlt_Qlt. apply Qle_lt_trans with h; assumption.
Qed.

Lemma minutes_bounds :
  inject_Z m <= (h - inject_Z w) * 60 + (1 # 2) /\
  (h - inject_Z w) * 60 + (1 # 2) < inject_Z m + 1.
Proof.
  subst m. unfold Math_round. split; [apply Qfloor_le|].
  pose proof (Qlt_floor ((h - inject_Z w) * 60 + (1 # 2))) as H.
  rewrite inject_Z_plus in H. exact H.
Qed.

Lemma minutes_range : (0 <= m <= 60)%Z.
Proof.
  destruct whole_bounds as [Hl Hu]. destruct minutes_bounds as [Ml Mu].
  split.
  - assert (-1 < inject_Z m) as H by lra.
    change (-1) with (inject_Z (-1)) in H. rewrite <- Zlt_Qlt in H. lia.
  - assert (inject_Z m < 61) as H by lra.
    change 61 with (inject_Z 61) in H. rewrite <- Zlt_Qlt in H. lia.
Qed.

Lemma Number_toString_whole :
  Number_toString (Z.to_N w) = decimal (Z.to_N w).
Proof.
  apply Number_toString_plain. pose proof whole_range.
  apply N2Z.inj_lt. rewrite Z2N.id by lia. change (Z.of_N (10 ^ 21)) with (10 ^ 21)%Z. lia.
Qed.

Lemma Number_toString_minutes :
  Number_toString (Z.to_N m) = decimal (Z.to_N m).
Proof.
  apply Number_toString_plain. pose proof minutes_range.
  apply N2Z.inj_lt. rewrite Z2N.id by lia. change (Z.of_N (10 ^ 21)) with (10 ^ 21)%Z. lia.
Qed.

(** Below [10 ^ 21] hours the formatted string is a list of components. *)
Lemma format_is_components :
  formatHoursAsJiraTime_chars h = join [" "] (map render (format_tokens h)).
Proof.
  unfold formatHoursAsJiraTime_chars, format_tokens. fold w. fold m.
  destruct ((w =? 0)%Z && (m =? 0)%Z); [reflexivity|].
  rewrite Number_toString_whole, Number_toString_minutes.
  destruct (0 <? w)%Z, (0 <? m)%Z; reflexivity.
Qed.




End RoundTrip.




End JiraFacts.

(* ================================================================== *)
(** * [sanitizeFileName] *)
(* ================================================================== *)

Module SanitizeFacts.
Import Chars Sanitize.
Local Open Scope string_scope.

Example sanitize_report :
  sanitizeFileName "my report (final).csv" = "my_report_final_.csv".
Proof. reflexivity. Qed.

Example sanitize_edges : sanitizeFileName "  a__b  " = "a_b".
Proof. reflexivity. Qed.

Example sanitize_only_us : sanitizeFileName "___" = "".
Proof. reflexivity. Qed.

Local Close Scope string_scope.

Lemma is_us_eq c : is_us c = true -> c = "_".
Proof. unfold is_us. intros H. apply Ascii.eqb_eq. exact H. Qed.

Lemma us_not_allowed : allowed "_" = false.
Proof. reflexivity. Qed.

(** *** Step 1 *)

Lemma replace_disallowed_chars s : Forall name_char (replace_disallowed s).
Proof.
  induction s as [|c s IH]; [constructor|].
  cbn [replace_disallowed map]. constructor; [|exact IH].
  destruct (allowed c) eqn:E; [left; exact E | right; reflexivity].
Qed.

Lemma replace_disallowed_id s :
  Forall name_char s -> replace_disallowed s = s.
Proof.
  induction 1 as [|c s Hc _ IH]; [reflexivity|].
  cbn [replace_disallowed map]. fold (replace_disallowed s). rewrite IH.
  destruct Hc as [-> | ->]; reflexivity.
Qed.

(** *** Step 2 *)

Lemma emit_chars run : Forall name_char (emit run).
Proof.
  destruct run as [|[|run]]; repeat constructor; right; reflexivity.
Qed.

Lemma collapse_from_chars s : forall run,
  Forall name_char s -> Forall name_char (collapse_from run s).
Proof.
  induction s as [|c s IH]; intros run Hs; cbn [collapse_from].
  - apply emit_chars.
  - inversion Hs; subst.
    destruct (is_us c); [apply IH; assumption|].
    apply Forall_app. split; [apply emit_chars|].
    constructor; [assumption | apply IH; assumption].
Qed.

Lemma no_double_cons_other c s :
  is_us c = false -> no_double_us s = true -> no_double_us (c :: s) = true.
Proof.
  intros Hc Hs. cbn [no_double_us]. destruct s; [reflexivity|].
  rewrite Hc, Hs. reflexivity.
Qed.

Lemma no_double_emit_other run c s :
  is_us c = false -> no_double_us s = true ->
  no_double_us (emit run ++ c :: s) = true.
Proof.
  intros Hc Hs. pose proof (no_double_cons_other c s Hc Hs) as H.
  destruct run as [|[|run]]; cbn [emit app]; try exact H;
    change (no_double_us ("_" :: c :: s))
      with (negb (is_us "_" && is_us c) && no_double_us (c :: s));
    rewrite Hc, H; reflexivity.
Qed.

Lemma collapse_from_no_double s : forall run,
  no_double_us (collapse_from run s) = true.
Proof.
  induction s as [|c s IH]; intros run; cbn [collapse_from].
  - destruct run as [|[|run]]; reflexivity.
  - destruct (is_us c) eqn:Hc; [apply IH|].
    apply no_double_emit_other; [exact Hc | apply IH].
Qed.

Lemma collapse_from_emit run s :
  starts_with_us s = false ->
  collapse_from run s = emit run ++ collapse_from O s.
Proof.
  destruct s as [|c s]; cbn [starts_with_us collapse_from]; intros H.
  - rewrite app_nil_r. reflexivity.
  - rewrite H. reflexivity.
Qed.

Lemma no_double_tail c s :
  no_double_us (c :: s) = true -> no_double_us s = true.
Proof.
  cbn [no_double_us]. destruct s; [reflexivity|].
  intros H. apply andb_prop in H. apply H.
Qed.

Lemma no_double_after_us c s :
  is_us c = true -> no_double_us (c :: s) = true -> starts_with_us s = false.
Proof.
  intros Hc. cbn [no_double_us]. destruct s as [|c' s]; [reflexivity|].
  rewrite Hc. cbn [starts_with_us andb]. intros H.
  destruct (is_us c'); [discriminate | reflexivity].
Qed.

Lemma collapse_underscores_id s :
  no_double_us s = true -> collapse_underscores s = s.
Proof.
  unfold collapse_underscores.
  induction s as [|c s IH]; intros H; [reflexivity|].
  pose proof (no_double_tail _ _ H) as Ht.
  cbn [collapse_from]. destruct (is_us c) eqn:Hc.
  - rewrite collapse_from_emit by (eapply no_double_after_us; eassumption).
    rewrite IH by exact Ht. rewrite (is_us_eq c Hc). reflexivity.
  - rewrite IH by exact Ht. reflexivity.
Qed.

(** *** Step 3 *)

Lemma strip_last_chars s : Forall name_char s -> Forall name_char (strip_last s).
Proof.
  induction 1 as [|c s Hc Hs IH]; [constructor|].
  cbn [strip_last]. destruct s as [|c' s'].
  - destruct (is_us c); [constructor|]. constructor; [assumption|constructor].
  - constructor; assumption.
Qed.

Lemma strip_last_starts s :
  starts_with_us s = false -> starts_with_us (strip_last s) = false.
Proof.
  destruct s as [|c [|c' s']]; cbn [strip_last starts_with_us]; intros H.
  - reflexivity.
  - rewrite H. exact H.
  - exact H.
Qed.

Lemma strip_last_no_double s :
  no_double_us s = true -> no_double_us (strip_last s) = true.
Proof.
  induction s as [|c s IH]; intros H; [reflexivity|].
  pose proof (no_double_tail _ _ H) as Ht. specialize (IH Ht).
  destruct s as [|c' s'].
  - cbn [strip_last]. destruct (is_us c); reflexivity.
  - change (strip_last (c :: c' :: s')) with (c :: strip_last (c' :: s')).
    destruct (is_us c) eqn:Hc.
    + pose proof (no_double_after_us _ _ Hc H) as Hs.
      apply strip_last_starts in Hs.
      destruct (strip_last (c' :: s')) as [|d t] eqn:E; [reflexivity|].
      cbn [starts_with_us] in Hs.
      change (no_double_us (c :: d :: t))
        with (negb (is_us c && is_us d) && no_double_us (d :: t)).
      rewrite Hs, IH, andb_false_r. reflexivity.
    + apply no_double_cons_other; assumption.
Qed.

Lemma strip_last_ends s :
  no_double_us s = true -> ends_with_us (strip_last s) = false.
Proof.
  induction s as [|c s IH]; intros H; [reflexivity|].
  pose proof (no_double_tail _ _ H) as Ht. specialize (IH Ht).
  destruct s as [|c' s'].
  - cbn [strip_last]. destruct (is_us c) eqn:Hc; [reflexivity|].
    cbn [ends_with_us]. exact Hc.
  - change (strip_last (c :: c' :: s')) with (c :: strip_last (c' :: s')).
    destruct (strip_last (c' :: s')) as [|d t] eqn:E.
    + (* the tail was a single underscore *)
      destruct s' as [|c'' s'']; [|discriminate E].
      cbn [strip_last] in E. destruct (is_us c') eqn:Hc'; [|discriminate E].
      cbn [ends_with_us]. cbn [no_double_us] in H. rewrite Hc' in H.
      destruct (is_us c); [discriminate H | reflexivity].
    + exact IH.
Qed.

Lemma strip_last_id s : ends_with_us s = false -> strip_last s = s.
Proof.
  induction s as [|c s IH]; intros H; [reflexivity|].
  destruct s as [|c' s'].
  - cbn [ends_with_us] in H. cbn [strip_last]. rewrite H. reflexivity.
  - change (strip_last (c :: c' :: s')) with (c :: strip_last (c' :: s')).
    rewrite IH by exact H. reflexivity.
Qed.

Lemma strip_edges_chars s : Forall name_char s -> Forall name_char (strip_edges s).
Proof.
  intros H. destruct s as [|c s]; [constructor|].
  cbn [strip_edges]. destruct (is_us c); apply strip_last_chars;
    [inversion H|]; assumption.
Qed.

Lemma strip_edges_no_double s :
  no_double_us s = true -> no_double_us (strip_edges s) = true.
Proof.
  intros H. destruct s as [|c s]; [reflexivity|].
  cbn [strip_edges]. destruct (is_us c); apply strip_last_no_double;
    [eapply no_double_tail|]; eassumption.
Qed.

Lemma strip_edges_starts s :
  no_double_us s = true -> starts_with_us (strip_edges s) = false.
Proof.
  intros H. destruct s as [|c s]; [reflexivity|].
  cbn [strip_edges]. destruct (is_us c) eqn:Hc; apply strip_last_starts.
  - eapply no_double_after_us; eassumption.
  - exact Hc.
Qed.

Lemma strip_edges_ends s :
  no_double_us s = true -> ends_with_us (strip_edges s) = false.
Proof.
  intros H. destruct s as [|c s]; [reflexivity|].
  cbn [strip_edges]. destruct (is_us c); apply strip_last_ends;
    [eapply no_double_tail|]; eassumption.
Qed.

Lemma strip_edges_id s :
  starts_with_us s = false -> ends_with_us s = false -> strip_edges s = s.
Proof.
  intros Hs He. destruct s as [|c s]; [reflexivity|].
  cbn [strip_edges]. cbn [starts_with_us] in Hs. rewrite Hs.
  apply strip_last_id. exact He.
Qed.

(** *** The three steps together *)

Lemma sanitize_chars_shape s :
  Forall name_char (sanitizeFileName_chars s)
  /\ no_double_us (sanitizeFileName_chars s) = true
  /\ starts_with_us (sanitizeFileName_chars s) = false
  /\ ends_with_us (sanitizeFileName_chars s) = false.
Proof.
  unfold sanitizeFileName_chars, collapse_underscores.
  pose proof (collapse_from_no_double (replace_disallowed s) O) as Hd.
  pose proof (collapse_from_chars _ O (replace_disallowed_chars s)) as Hc.
  repeat split.
  - apply strip_edges_chars. exact Hc.
  - apply strip_edges_no_double. exact Hd.
  - apply strip_edges_starts. exact Hd.
  - apply strip_edges_ends. exact Hd.
Qed.

Lemma sanitize_chars_fixpoint s :
  Forall name_char s -> no_double_us s = true ->
  starts_with_us s = false -> ends_with_us s = false ->
  sanitizeFileName_chars s = s.
Proof.
  intros Hc Hd Hs He. unfold sanitizeFileName_chars.
  rewrite replace_disallowed_id by exact Hc.
  rewrite collapse_underscores_id by exact Hd.
  apply strip_edges_id; assumption.
Qed.

(** C10: for every string s, [sanitizeFileName s] contains only
    characters of [a-zA-Z0-9.-] and underscores, never two underscores in
    a row, and neither starts nor ends with an underscore; and
    [sanitizeFileName] is idempotent. *)
Theorem sanitizeFileName_shape_idempotent (s : string) :
  Forall name_char (list_ascii_of_string (sanitizeFileName s))
  /\ no_double_us (list_ascii_of_string (sanitizeFileName s)) = true
  /\ starts_with_us (list_ascii_of_string (sanitizeFileName s)) = false
  /\ ends_with_us (list_ascii_of_string (sanitizeFileName s)) = false
  /\ sanitizeFileName (sanitizeFileName s) = sanitizeFileName s.
Proof.
  unfold sanitizeFileName.
  rewrite !list_ascii_of_string_of_list_ascii.
  destruct (sanitize_chars_shape (list_ascii_of_string s)) as (Hc & Hd & Hs & He).
  repeat split; try assumption.
  rewrite sanitize_chars_fixpoint by assumption. reflexivity.
Qed.

End SanitizeFacts.

(* ================================================================== *)
(** * zod: when a value is accepted *)
(* ================================================================== *)

Module ZodFacts.
Import Js Zod.

Local Open Scope string_scope.

Section Acceptance.
Context {formats : Formats}.

Lemma safeParse_success s data :
  success (safeParse (zod s) data) = true <-> accepts s [] data.
Proof.
  unfold accepts. cbn [safeParse zod].
  destruct (parse s [] data) as [[|e es] out]; cbn [fst success];
    split; congruence.
Qed.

Lemma safeParse_Success s data out :
  safeParse (zod s) data = Success out ->
  accepts s [] data /\ out = snd (parse s [] data).
Proof.
  unfold accepts. cbn [safeParse zod].
  destruct (parse s [] data) as [[|e es] o]; cbn [fst snd]; intros H;
    [injection H as <-; split; reflexivity | discriminate].
Qed.

Lemma safeParse_Failure s data errors :
  safeParse (zod s) data = Failure errors ->
  errors = fst (parse s [] data) /\ errors <> [].
Proof.
  cbn [safeParse zod].
  destruct (parse s [] data) as [[|e es] o]; cbn [fst]; intros H;
    [discriminate | injection H as <-; split; [reflexivity | discriminate]].
Qed.

(** *** Scalars *)

Lemma invalid_type_cons p e d : [invalid_type p e d] <> [].
Proof. discriminate. Qed.

Lemma accepts_boolean p data :
  accepts ZBoolean p data <-> exists b, data = VBool b.
Proof.
  unfold accepts. destruct data; cbn [parse fst]; split;
    try discriminate; try (intros [b' H]; discriminate); eauto.
Qed.

Lemma accepts_enum values p data :
  accepts (ZEnum values) p data <-> exists s, data = VStr s /\ In s values.
Proof.
  unfold accepts. destruct data; cbn [parse fst]; split;
    try discriminate; try (intros [s' [H _]]; discriminate).
  - destruct (existsb (String.eqb s) values) eqn:E; [|discriminate].
    intros _. exists s. split; [reflexivity|].
    apply existsb_exists in E. destruct E as [x [Hx Hs]].
    apply String.eqb_eq in Hs. subst. exact Hx.
  - intros [s' [H Hin]]. injection H as <-.
    assert (existsb (String.eqb s) values = true) as ->; [|reflexivity].
    apply existsb_exists. exists s. split; [exact Hin | apply String.eqb_refl].
Qed.

Lemma accepts_optional s p data :
  accepts (ZOptional s) p data <-> data = VUndefined \/ accepts s p data.
Proof.
  unfold accepts. destruct data; cbn [parse fst]; split; auto;
    intros [H|H]; try discriminate; auto.
Qed.

Lemma accepts_any p data : accepts ZAny p data.
Proof. reflexivity. Qed.

Lemma flat_map_nil {A B} (f : A -> list B) l :
  flat_map f l = [] <-> Forall (fun x => f x = []) l.
Proof.
  induction l as [|x l IH]; cbn [flat_map]; split; intros H.
  - constructor.
  - reflexivity.
  - apply app_eq_nil in H. destruct H as [H1 H2].
    constructor; [exact H1 | apply IH; exact H2].
  - inversion H; subst. rewrite H2. apply IH. assumption.
Qed.

Lemma accepts_number checks p data :
  accepts (ZNumber checks) p data <->
  exists n, data = VNum n /\ n <> NaN
            /\ Forall (fun c => number_check p n c = []) checks.
Proof.
  unfold accepts. destruct data as [| | |n| | | |]; cbn [parse fst]; split;
    try discriminate; try (intros [n' [H _]]; discriminate).
  - intros H. exists n. destruct n; cbn [fst] in H; try discriminate;
      (split; [reflexivity | split; [discriminate | apply flat_map_nil; exact H]]).
  - intros [n' [H [Hn Hc]]]. injection H as <-.
    destruct n; cbn [fst]; try (apply flat_map_nil; exact Hc). congruence.
Qed.

Lemma accepts_positive p data :
  accepts (ZNumber [Positive]) p data <->
  exists n, data = VNum n /\ gt0 n = true.
Proof.
  rewrite accepts_number. split.
  - intros [n [-> [_ H]]]. exists n. split; [reflexivity|].
    inversion H as [|? ? H1 _]; subst. cbn [number_check] in H1.
    destruct (gt0 n); [reflexivity | discriminate].
  - intros [n [-> H]]. exists n. split; [reflexivity|]. split.
    + intros ->. discriminate.
    + constructor; [|constructor]. cbn [number_check]. rewrite H. reflexivity.
Qed.

Lemma accepts_string_plain p data :
  accepts (ZString []) p data <-> exists s, data = VStr s.
Proof.
  unfold accepts. destruct data; cbn [parse fst flat_map]; split;
    try discriminate; try (intros [s' H]; discriminate); eauto.
Qed.

(** *** Objects and arrays *)

Lemma parse_object_issues shape p props :
  fst (parse (ZObject shape) p (VObj props)) =
  List.concat
    (map (fun ks => fst (parse (snd ks) (p ++ [PKey (fst ks)])%list
                           (get props (fst ks)))) shape).
Proof.
  cbn [parse fst].
  induction shape as [|[k sk] sh IH]; [reflexivity|].
  cbn [map List.concat fst snd]. f_equal. exact IH.
Qed.

Lemma concat_nil {A} (l : list (list A)) :
  List.concat l = [] <-> Forall (fun x => x = []) l.
Proof.
  induction l as [|x l IH]; cbn [List.concat]; split; intros H.
  - constructor.
  - reflexivity.
  - apply app_eq_nil in H. destruct H as [H1 H2].
    constructor; [exact H1 | apply IH; exact H2].
  - inversion H; subst. apply IH. assumption.
Qed.

(** An object schema accepts exactly the objects whose properties are
    accepted by the schemas of the shape; other properties are ignored. *)
Lemma accepts_object shape p data :
  accepts (ZObject shape) p data <->
  exists props, data = VObj props /\
    Forall (fun ks => accepts (snd ks) (p ++ [PKey (fst ks)])%list
                        (get props (fst ks))) shape.
Proof.
  destruct data as [| | | | | |props|];
    try (split; [intros H; discriminate H | intros [q [H _]]; discriminate H]).
  unfold accepts at 1. rewrite parse_object_issues, concat_nil, Forall_map.
  split.
  - intros H. exists props. split; [reflexivity | exact H].
  - intros [q [H Hf]]. injection H as <-. exact Hf.
Qed.

Lemma parse_items_issues (f : list PathKey -> value -> list ZodIssue * value)
  p items : forall i,
  List.concat (map fst (parse_items f p i items)) = [] ->
  forall item, In item items -> exists q, fst (f q item) = [].
Proof.
  induction items as [|x items IH]; intros i H item Hin; [destruct Hin|].
  cbn [parse_items map List.concat] in H. apply app_eq_nil in H.
  destruct H as [H1 H2]. destruct Hin as [<-|Hin].
  - eexists. exact H1.
  - eapply IH; eassumption.
Qed.

Lemma parse_items_no_issue (f : list PathKey -> value -> list ZodIssue * value)
  p items : forall i,
  (forall item q, In item items -> fst (f q item) = []) ->
  List.concat (map fst (parse_items f p i items)) = [].
Proof.
  induction items as [|x items IH]; intros i H; [reflexivity|].
  cbn [parse_items map List.concat].
  rewrite H by (left; reflexivity). cbn [app].
  apply IH. intros item q Hin. apply H. right. exact Hin.
Qed.

Lemma accepts_array_items s p data :
  accepts (ZArray s) p data ->
  exists items, data = VArr items /\
    forall item, In item items -> exists q, accepts s q item.
Proof.
  unfold accepts. destruct data as [| | | | |items| |]; cbn [parse fst];
    try discriminate.
  intros H. exists items. split; [reflexivity|].
  eapply parse_items_issues. exact H.
Qed.

Lemma accepts_array_all s p items :
  (forall item q, In item items -> accepts s q item) ->
  accepts (ZArray s) p (VArr items).
Proof.
  intros H. unfold accepts. cbn [parse fst].
  apply parse_items_no_issue. exact H.
Qed.

End Acceptance.

End ZodFacts.

(* ================================================================== *)
(** * The validators and type guards *)
(* ================================================================== *)

Module ValidationFacts.
Import Js Zod Types Validation Shapes ZodFacts.

Local Open Scope string_scope.
Local Infix "+:+" := String.append (at level 60, right associativity).

(** ** [validateData] *)


Example validateGroupingConfig_message {formats : Formats} :
  validateGroupingConfig unknown_dimension =
  Throw ("Invalid grouping configuration: levels.0.dimension: "
         +:+ "Invalid enum value. Expected 'project' | 'user' | 'issueType'"
         +:+ " | 'status' | 'date' | 'issue', received 'priority'").
Proof. reflexivity. Qed.

Example validateGroupingConfig_two_issues {formats : Formats} :
  validateGroupingConfig (VObj [("levels", VArr []);
                                ("showSubtotals", VNum (Fin 1))]) =
  Throw ("Invalid grouping configuration: "
         +:+ "showSubtotals: Expected boolean, received number, "
         +:+ "showGrandTotal: Required, collapseEmptyGroups: Required").
Proof. reflexivity. Qed.

Example validateData_not_an_object {formats : Formats} :
  validateData (zod GroupingConfigSchema) (VNum (Fin 1)) None =
  Throw "Validation failed: : Expected object, received number".
Proof. reflexivity. Qed.

(** ** Guards and validators agree *)

Section Agreement.
Context {formats : Formats}.

Lemma guard_iff_returns s data m :
  success (safeParse (zod s) data) = true
  <-> returns (validateData (zod s) data m).
Proof.
  unfold returns, validateData.
  destruct (safeParse (zod s) data) as [d|errors]; cbn [success]; split.
  - intros _. exists d. reflexivity.
  - reflexivity.
  - discriminate.
  - intros [v H]. discriminate.
Qed.

Lemma returns_iff_accepts s data m :
  returns (validateData (zod s) data m) <-> accepts s [] data.
Proof. rewrite <- guard_iff_returns. apply safeParse_success. Qed.

Lemma not_returns_throws {T} (c : Completion T) : ~ returns c -> throws c.
Proof.
  destruct c as [v|m]; intros H.
  - exfalso. apply H. exists v. reflexivity.
  - exists m. reflexivity.
Qed.

End Agreement.

(** C8: for every input value x, [isGroupingConfig x] is true if and
    only if [validateGroupingConfig x] returns without raising, and
    [isTimesheetEntry x] is true if and only if [validateTimesheetEntry x]
    returns without raising. *)
Theorem guards_agree_with_validators {formats : Formats} (x : value) :
  (isGroupingConfig x = true <-> returns (validateGroupingConfig x))
  /\ (isTimesheetEntry x = true <-> returns (validateTimesheetEntry x)).
Proof. split; apply guard_iff_returns. Qed.

Lemma entry_guard_returns {formats : Formats} (x : value) :
  isTimesheetEntry x = true -> returns (validateTimesheetEntry x).
Proof. apply guard_iff_returns. Qed.

(** ** Grouping configurations *)

(** C7: [validateGroupingConfig] and [isGroupingConfig] accept a
    configuration whose list of levels is empty. *)
Theorem empty_levels_accepted {formats : Formats} :
  field (groupingConfig []) "levels" = VArr []
  /\ validateGroupingConfig (groupingConfig []) = Return (groupingConfig [])
  /\ isGroupingConfig (groupingConfig []) = true.
Proof. repeat split. Qed.

Section Levels.
Context {formats : Formats}.

Lemma accepted_level_dimension p lvl :
  accepts GroupingLevelSchema p lvl -> dimension_known lvl.
Proof.
  unfold GroupingLevelSchema. intros H.
  apply accepts_object in H. destruct H as [props [-> Hf]].
  inversion Hf as [|? ? Hd _]; subst. cbn [fst snd] in Hd.
  apply accepts_enum in Hd. exact Hd.
Qed.

Lemma accepted_config_levels x :
  accepts GroupingConfigSchema [] x ->
  exists levels, field x "levels" = VArr levels /\
    forall lvl, In lvl levels -> dimension_known lvl.
Proof.
  unfold GroupingConfigSchema. intros H.
  apply accepts_object in H. destruct H as [props [-> Hf]].
  inversion Hf as [|? ? Hl _]; subst. cbn [fst snd] in Hl.
  apply accepts_array_items in Hl. destruct Hl as [items [Hi Hall]].
  exists items. split; [exact Hi|].
  intros lvl Hin. destruct (Hall lvl Hin) as [q Hq].
  eapply accepted_level_dimension. exact Hq.
Qed.

End Levels.

(** C3 (amended): for every input value, [validateGroupingConfig] raises
    an error when some level's dimension is not one of
    project | user | issueType | status | date | issue. *)
Theorem unknown_dimension_rejected {formats : Formats}
  (x : value) (levels : list value) (lvl : value) :
  field x "levels" = VArr levels -> In lvl levels -> ~ dimension_known lvl ->
  throws (validateGroupingConfig x).
Proof.
  intros Hx Hin Hbad. apply not_returns_throws. intros Hr.
  apply returns_iff_accepts, accepted_config_levels in Hr.
  destruct Hr as [levels' [Hx' Hall]].
  rewrite Hx in Hx'. injection Hx' as <-.
  apply Hbad, Hall, Hin.
Qed.

Lemma unknown_dimension_rejected_witness :
  throws (@validateGroupingConfig sample_formats unknown_dimension).
Proof.
  apply (@unknown_dimension_rejected sample_formats unknown_dimension
           [groupingLevel "priority" None] (groupingLevel "priority" None)).
  - reflexivity.
  - simpl. left. reflexivity.
  - intros [s [H Hin]]. simpl in H. injection H as <-.
    simpl in Hin. repeat (destruct Hin as [Hin|Hin]; [discriminate Hin|]).
    exact Hin.
Defined.

(** C3 as stated fails: a level that sets [dateGroupingType] on the
    dimension 'project', and a level of dimension 'date' without
    [dateGroupingType], are both malformed in the specification's sense,
    and both configurations are returned as valid. *)
Lemma date_grouping_mismatch_accepted :
  (malformed project_by_day
   /\ forall formats : Formats,
        validateGroupingConfig project_by_day = Return project_by_day)
  /\ (malformed date_without_type
      /\ forall formats : Formats,
           validateGroupingConfig date_without_type
           = Return date_without_type).
Proof.
  split; split; try (intros formats; reflexivity).
  - exists [groupingLevel "project" (Some "day")],
           (groupingLevel "project" (Some "day")).
    split; [reflexivity|]. split; [left; reflexivity|].
    right. left. split; discriminate.
  - exists [groupingLevel "date" None], (groupingLevel "date" None).
    split; [reflexivity|]. split; [left; reflexivity|].
    right. right. split; reflexivity.
Qed.

(** ** Timesheet entries *)

Lemma accepted_entry_fields {formats : Formats} x :
  accepts TimesheetEntrySchema [] x ->
  exists s h,
    field x "timeSpentSeconds" = VNum s /\ gt0 s = true
    /\ field x "timeSpentHours" = VNum h /\ gt0 h = true.
Proof.
  unfold TimesheetEntrySchema. intros H.
  apply accepts_object in H. destruct H as [props [-> Hf]].
  do 4 (inversion Hf as [|? ? _ Hf']; subst; clear Hf; rename Hf' into Hf).
  inversion Hf as [|? ? Hs Hf']; subst.
  inversion Hf' as [|? ? Hh _]; subst.
  cbn [fst snd] in Hs, Hh.
  apply accepts_positive in Hs. apply accepts_positive in Hh.
  destruct Hs as [s [Es Ps]]. destruct Hh as [h [Eh Ph]].
  exists s, h. cbn [field]. auto.
Qed.

(** C2 (amended): every value accepted by the TimesheetEntry validation
    (the type guard or the throwing validator) has a number
    [timeSpentSeconds > 0] and a number [timeSpentHours > 0]. *)
Theorem accepted_entry_positive {formats : Formats} (x : value) :
  isTimesheetEntry x = true \/ returns (validateTimesheetEntry x) ->
  exists s h,
    field x "timeSpentSeconds" = VNum s /\ gt0 s = true
    /\ field x "timeSpentHours" = VNum h /\ gt0 h = true.
Proof.
  intros [H|H]; apply accepted_entry_fields.
  - apply safeParse_success. exact H.
  - eapply returns_iff_accepts. exact H.
Qed.

Lemma accepted_entry_positive_witness :
  exists s h,
    field (sample_entry 5400 (3 # 2)) "timeSpentSeconds" = VNum s
    /\ gt0 s = true
    /\ field (sample_entry 5400 (3 # 2)) "timeSpentHours" = VNum h
    /\ gt0 h = true.
Proof.
  apply (@accepted_entry_positive sample_formats (sample_entry 5400 (3 # 2))).
  left. vm_compute. reflexivity.
Defined.

(** C2 as stated fails: an entry of 3600 seconds that claims 5 hours is
    accepted, whatever the email check is as long as it accepts the sample
    address; its hours are 4 away from seconds / 3600. *)
Lemma inconsistent_hours_accepted :
  (forall formats : Formats,
     is_email "dev@example.com" = true ->
     isTimesheetEntry (sample_entry 3600 5) = true
     /\ returns (validateTimesheetEntry (sample_entry 3600 5)))
  /\ ~ hours_derived 1 (sample_entry 3600 5).
Proof.
  split.
  - intros formats He.
    assert (isTimesheetEntry (sample_entry 3600 5) = true) as H.
    { unfold isTimesheetEntry. apply safeParse_success.
      unfold accepts. cbn. rewrite He. reflexivity. }
    split; [exact H|]. apply entry_guard_returns. exact H.
  - intros [s [h [Hs [Hh Hd]]]]. cbn in Hs, Hh.
    injection Hs as <-. injection Hh as <-.
    vm_compute in Hd. apply Hd. reflexivity.
Qed.

(** ** Requests *)

Lemma accepts_limit {formats : Formats} p v :
  accepts (ZOptional (ZNumber [Positive; Max 1000])) p v -> limit_ok v.
Proof.
  intros H. apply accepts_optional in H. destruct H as [H|H]; [left; exact H|].
  right. apply accepts_number in H. destruct H as [n [-> [_ Hc]]].
  exists n. split; [reflexivity|].
  inversion Hc as [|? ? H1 Hc']; subst. inversion Hc' as [|? ? H2 _]; subst.
  cbn [number_check] in H1, H2.
  destruct (gt0 n); [|discriminate H1].
  change (inject_Z (Z.of_N 1000)) with 1000%Q in H2.
  destruct (le_num n 1000); [split; reflexivity | discriminate H2].
Qed.

Lemma accepts_page {formats : Formats} p v :
  accepts (ZOptional (ZNumber [Positive])) p v -> page_ok v.
Proof.
  intros H. apply accepts_optional in H. destruct H as [H|H]; [left; exact H|].
  right. apply accepts_positive in H. exact H.
Qed.

(** C9: [isTimesheetsRequest] returns true only if [page], when present,
    is a positive number and [limit], when present, is a positive number
    not exceeding 1000; and it places no constraint on [filters] and
    [grouping]: a request is accepted whatever these two are, for instance
    when they are [null], which is neither a FilterState nor a
    GroupingConfig. *)
Theorem timesheets_request_guard {formats : Formats}
  (x filters grouping : value) :
  (isTimesheetsRequest x = true ->
   page_ok (field x "page") /\ limit_ok (field x "limit"))
  /\ isTimesheetsRequest (request filters grouping) = true
  /\ isFilterState VNull = false /\ isGroupingConfig VNull = false
  /\ isTimesheetsRequest (request VNull VNull) = true.
Proof.
  split; [|repeat split].
  intros H. apply safeParse_success in H.
  unfold TimesheetsRequestSchema in H.
  apply accepts_object in H. destruct H as [props [-> Hf]].
  do 2 (inversion Hf as [|? ? _ Hf']; subst; clear Hf; rename Hf' into Hf).
  inversion Hf as [|? ? Hp Hf']; subst.
  inversion Hf' as [|? ? Hl _]; subst.
  cbn [fst snd] in Hp, Hl. cbn [field].
  split; [eapply accepts_page | eapply accepts_limit]; eassumption.
Qed.

Lemma timesheets_request_guard_witness :
  page_ok (field (VObj [("page", VNum (Fin 2)); ("limit", VNum (Fin 50))])
             "page")
  /\ limit_ok (field (VObj [("page", VNum (Fin 2)); ("limit", VNum (Fin 50))])
                 "limit").
Proof.
  apply (proj1 (@timesheets_request_guard sample_formats
                  (VObj [("page", VNum (Fin 2)); ("limit", VNum (Fin 50))])
                  VNull VNull)).
  vm_compute. reflexivity.
Defined.

End ValidationFacts.

(* ================================================================== *)
(** * The group tree builder: aggregates *)
(* ================================================================== *)

Module GroupingFacts.
Import Grouping.

Local Open Scope Q_scope.

Example scenario_A :
  map (fun n => (value n, totalHours n, entryCount n))
      (build by_day scenario_A_entries by_project_name)
  = [("A"%string, 5, 2%nat); ("B"%string, 1, 1%nat)].
Proof. reflexivity. Qed.

(** ** Induction on trees *)

Section TreeInduction.
Variable P : GroupNode -> Prop.
Hypothesis step :
  forall i d v dn l h c ch es x,
    Forall P ch -> P (mkGroupNode i d v dn l h c ch es x).

Fixpoint GroupNode_forall_ind (n : GroupNode) : P n :=
  match n with
  | mkGroupNode i d v dn l h c ch es x =>
      step i d v dn l h c ch es x
        ((fix all (ns : list GroupNode) : Forall P ns :=
            match ns with
            | [] => Forall_nil P
            | k :: ns' => Forall_cons k (GroupNode_forall_ind k) (all ns')
            end) ch)
  end.
End TreeInduction.

Lemma nodes_of_self n : In n (nodes_of n).
Proof. destruct n. left. reflexivity. Qed.

Lemma nodes_of_child n c m :
  In c (children n) -> In m (nodes_of c) -> In m (nodes_of n).
Proof.
  destruct n as [i d v dn l h k ch es x]. cbn [children nodes_of].
  intros Hc Hm. right. apply in_flat_map. exists c. split; assumption.
Qed.

Lemma nodes_of_trans n : forall m x,
  In m (nodes_of n) -> In x (nodes_of m) -> In x (nodes_of n).
Proof.
  induction n as [i d v dn l h c ch es x0 IH] using GroupNode_forall_ind.
  intros m x Hm Hx. cbn [nodes_of] in Hm. destruct Hm as [<-|Hm]; [exact Hx|].
  apply in_flat_map in Hm. destruct Hm as [k [Hk Hm]].
  rewrite Forall_forall in IH.
  eapply nodes_of_child; [exact Hk|]. eapply IH; eassumption.
Qed.

(** ** Sums *)

Lemma sumQ_app l1 l2 : sumQ (l1 ++ l2) == sumQ l1 + sumQ l2.
Proof.
  unfold sumQ. induction l1 as [|a l1 IH]; cbn [app fold_right].
  - ring.
  - rewrite IH. ring.
Qed.

Lemma sumQ_flat_map {A} (f : string -> Q) (g : A -> list string) l :
  sumQ (map f (flat_map g l)) == sumQ (map (fun a => sumQ (map f (g a))) l).
Proof.
  induction l as [|a l IH]; cbn [flat_map map]; [reflexivity|].
  rewrite map_app, sumQ_app, IH. unfold sumQ. cbn [fold_right]. reflexivity.
Qed.

Lemma sumQ_pointwise {A} (f g : A -> Q) l :
  Forall (fun a => f a == g a) l -> sumQ (map f l) == sumQ (map g l).
Proof.
  unfold sumQ.
  induction 1 as [|a l Ha _ IH]; cbn [map fold_right]; [reflexivity|].
  rewrite Ha, IH. reflexivity.
Qed.

Lemma sum_nat_flat_map {A} (g : A -> list string) l :
  List.length (flat_map g l) = sum_nat (map (fun a => List.length (g a)) l).
Proof.
  unfold sum_nat.
  induction l as [|a l IH]; cbn [flat_map map fold_right]; [reflexivity|].
  rewrite length_app, IH. reflexivity.
Qed.

Lemma sum_nat_pointwise {A} (f g : A -> nat) l :
  Forall (fun a => f a = g a) l -> sum_nat (map f l) = sum_nat (map g l).
Proof.
  unfold sum_nat.
  induction 1 as [|a l Ha _ IH]; cbn [map fold_right]; [reflexivity|].
  rewrite Ha, IH. reflexivity.
Qed.

(** ** The local invariant and what it implies *)

Section Aggregates.
Variable E : list TimesheetEntry.t.

(** The subtrees of a list of siblings, taken together. *)
Lemma siblings_subtrees ch :
  Forall (subtree_ok E) ch ->
  exists subs : list TimesheetEntry.t,
    incl subs E
    /\ flat_map subtree_entries ch = map TimesheetEntry.id subs
    /\ sumQ (map totalHours ch)
       == sumQ (map TimesheetEntry.timeSpentHours subs)
    /\ sum_nat (map entryCount ch) = List.length subs.
Proof.
  induction 1 as [|k ch Hk _ IH].
  - exists []. repeat split; try reflexivity. intros ? [].
  - destruct Hk as (sub & Hi & Hs & Hh & Hc).
    destruct IH as (subs & Hi' & Hs' & Hh' & Hc').
    exists (sub ++ subs)%list. split; [apply incl_app; assumption|].
    cbn [flat_map map]. rewrite !map_app, length_app, Hs, Hs'.
    split; [reflexivity|]. split.
    + rewrite sumQ_app, <- Hh, <- Hh'. unfold sumQ. cbn [fold_right].
      reflexivity.
    + unfold sum_nat in *. cbn [fold_right]. rewrite Hc, Hc'. reflexivity.
Qed.

Lemma subtree_totals n :
  (forall m, In m (nodes_of n) -> locally_ok E m) -> subtree_ok E n.
Proof.
  induction n as [i d v dn l h c ch es x IH] using GroupNode_forall_ind.
  intros Hall.
  destruct (Hall _ (nodes_of_self _)) as (own & Hi & He & Hh & Hc).
  cbn [totalHours entryCount children entries] in He, Hh, Hc.
  assert (Hkids : Forall (subtree_ok E) ch).
  { rewrite Forall_forall in IH |- *. intros k Hk. apply IH; [exact Hk|].
    intros m Hm. apply Hall.
    eapply (nodes_of_child (mkGroupNode i d v dn l h c ch es x)); eassumption. }
  destruct (siblings_subtrees ch Hkids) as (subs & Hi' & Hs' & Hh' & Hc').
  exists (own ++ subs)%list. split; [apply incl_app; assumption|].
  cbn [totalHours entryCount subtree_entries].
  rewrite !map_app, length_app, He, Hs'. split; [reflexivity|]. split.
  - rewrite Hh, sumQ_app, Hh'. ring.
  - rewrite Hc, Hc'. lia.
Qed.

(** Local invariants everywhere give the aggregate invariants of the
    specification at every node. *)
Lemma locally_ok_aggregates forest :
  (forall m, In m (forest_nodes forest) -> locally_ok E m) ->
  forall n, In n (forest_nodes forest) -> owned_aggregates E n.
Proof.
  intros Hall n Hn.
  assert (Hsub : forall m, In m (nodes_of n) -> locally_ok E m).
  { intros m Hm. apply Hall. unfold forest_nodes in *.
    apply in_flat_map in Hn. destruct Hn as [r [Hr Hn]].
    apply in_flat_map. exists r. split; [exact Hr|].
    eapply nodes_of_trans; eassumption. }
  destruct (subtree_totals n Hsub) as (sub & Hi' & Hs & Hh' & Hc').
  destruct (Hsub n (nodes_of_self n)) as (own & Hi & He & Hh & Hc).
  exists own, sub. repeat split; try assumption.
  rewrite <- Hh'.
  setoid_replace (totalHours n - totalHours n) with 0 by ring.
  discriminate.
Qed.

(** ** Entries and their hours *)

Lemma hours_of_in e :
  NoDup (map TimesheetEntry.id E) -> In e E ->
  hours_of E (TimesheetEntry.id e) = TimesheetEntry.timeSpentHours e.
Proof.
  unfold hours_of.
  induction E as [|a l IH]; intros Hnd Hin; [destruct Hin|].
  cbn [map] in Hnd. inversion Hnd as [|? ? Hnotin Hnd']; subst.
  cbn [find].
  destruct (String.eqb_spec (TimesheetEntry.id a) (TimesheetEntry.id e))
    as [Heq|Hne].
  - destruct Hin as [->|Hin]; [reflexivity|].
    exfalso. apply Hnotin. rewrite Heq. apply in_map. exact Hin.
  - destruct Hin as [->|Hin]; [congruence|]. apply IH; assumption.
Qed.

Lemma hours_by_id es :
  NoDup (map TimesheetEntry.id E) -> incl es E ->
  map (hours_of E) (map TimesheetEntry.id es)
  = map TimesheetEntry.timeSpentHours es.
Proof.
  intros Hnd Hincl. rewrite map_map. apply map_ext_in.
  intros e He. apply hours_of_in; [exact Hnd | apply Hincl, He].
Qed.

(** With distinct identifiers the owned entries are the ones the lookup
    finds. *)
Lemma owned_aggregates_lookup n :
  NoDup (map TimesheetEntry.id E) -> owned_aggregates E n -> aggregates_ok E n.
Proof.
  intros Hnd (own & sub & Hi & Hi' & He & Hs & Hh & Hd & Hc).
  unfold aggregates_ok.
  rewrite He, Hs, !hours_by_id, length_map by assumption.
  repeat split; assumption.
Qed.

(** ** Buckets and sorting *)

Lemma add_to_bucket_in k0 e buckets : forall k b x,
  In (k, b) (add_to_bucket k0 e buckets) -> In x b ->
  x = e \/ exists b', In (k, b') buckets /\ In x b'.
Proof.
  induction buckets as [|[k1 b1] rest IH]; intros k b x Hb Hx.
  - cbn [add_to_bucket] in Hb. destruct Hb as [Hb|[]].
    injection Hb as <- <-. destruct Hx as [<-|[]]. left. reflexivity.
  - cbn [add_to_bucket] in Hb. destruct (String.eqb k0 k1).
    + destruct Hb as [Hb|Hb].
      * injection Hb as <- <-. apply in_app_or in Hx.
        destruct Hx as [Hx|[<-|[]]]; [right|left; reflexivity].
        exists b1. split; [left; reflexivity | exact Hx].
      * right. exists b. split; [right; exact Hb | exact Hx].
    + destruct Hb as [Hb|Hb].
      * injection Hb as <- <-. right. exists b1.
        split; [left; reflexivity | exact Hx].
      * destruct (IH _ _ _ Hb Hx) as [->|[b' [Hb' Hx']]]; [left; reflexivity|].
        right. exists b'. split; [right; exact Hb' | exact Hx'].
Qed.

Lemma fold_buckets_in (f : TimesheetEntry.t -> string)
  (all : list TimesheetEntry.t) es : forall acc,
  (forall k b x, In (k, b) acc -> In x b -> In x all) -> incl es all ->
  forall k b x,
    In (k, b) (fold_left (fun bs e => add_to_bucket (f e) e bs) es acc) ->
    In x b -> In x all.
Proof.
  induction es as [|e es IH]; intros acc Hacc Hes k b x Hb Hx.
  - cbn [fold_left] in Hb. eapply Hacc; eassumption.
  - cbn [fold_left] in Hb.
    eapply (IH (add_to_bucket (f e) e acc)); try eassumption.
    + intros k' b' x' Hb' Hx'.
      destruct (add_to_bucket_in _ _ _ _ _ _ Hb' Hx') as [->|[b'' [H1 H2]]].
      * apply Hes. left. reflexivity.
      * eapply Hacc; eassumption.
    + intros y Hy. apply Hes. right. exact Hy.
Qed.

Lemma partition_by_in f es k b :
  In (k, b) (partition_by f es) -> incl b es.
Proof.
  intros Hb x Hx. unfold partition_by in Hb.
  eapply (fold_buckets_in f es es []); try eassumption.
  - intros ? ? ? [].
  - apply incl_refl.
Qed.

Lemma insert_sibling_in leb x l n :
  In n (insert_sibling leb x l) -> n = x \/ In n l.
Proof.
  induction l as [|y l IH]; cbn [insert_sibling]; intros H.
  - destruct H as [<-|[]]. left. reflexivity.
  - destruct (leb x y).
    + destruct H as [<-|H]; [left; reflexivity | right; exact H].
    + destruct H as [<-|H]; [right; left; reflexivity|].
      destruct (IH H) as [->|H']; [left; reflexivity | right; right; exact H'].
Qed.

Lemma sort_siblings_in lvl l n : In n (sort_siblings lvl l) -> In n l.
Proof.
  unfold sort_siblings. induction l as [|x l IH]; cbn [fold_right]; intros H.
  - exact H.
  - apply insert_sibling_in in H. destruct H as [->|H];
      [left; reflexivity | right; apply IH; exact H].
Qed.

(** ** The nodes the builder makes *)

Variable bucket_start : option DateGroupingType -> string -> string.

Lemma build_levels_locally_ok lvls : forall depth parent es,
  incl es E ->
  forall m,
    In m (forest_nodes (build_levels bucket_start lvls depth parent es)) ->
    locally_ok E m.
Proof.
  induction lvls as [|lvl rest IH]; intros depth parent es Hes m Hm.
  - destruct Hm.
  - cbn [build_levels] in Hm. unfold forest_nodes in Hm.
    apply in_flat_map in Hm. destruct Hm as [r [Hr Hm]].
    apply sort_siblings_in, in_map_iff in Hr.
    destruct Hr as [[k bes] [<- Hb]].
    assert (Hbes : incl bes E).
    { intros x Hx. apply Hes. eapply partition_by_in; eassumption. }
    cbn [nodes_of] in Hm. destruct Hm as [<-|Hm].
    + exists (match rest with [] => bes | _ :: _ => [] end).
      cbn [totalHours entryCount children entries].
      split; [destruct rest; [exact Hbes | intros ? []]|].
      repeat split; reflexivity.
    + eapply IH; [exact Hbes | exact Hm].
Qed.

Lemma ungrouped_root_locally_ok m :
  In m (forest_nodes [ungrouped_root E]) -> locally_ok E m.
Proof.
  cbn. intros [<-|[]]. exists E.
  cbn [totalHours entryCount children entries ungrouped_root].
  split; [apply incl_refl|]. split; [reflexivity|].
  split; [cbn; ring | reflexivity].
Qed.

(** ** Pruning *)

Lemma prune_fields n :
  totalHours (prune n) = totalHours n
  /\ entryCount (prune n) = entryCount n
  /\ entries (prune n) = entries n.
Proof. destruct n. repeat split. Qed.

Lemma pruned_hours ch :
  Forall (fun c => entryCount c = O -> totalHours c == 0) ch ->
  sumQ (map totalHours (filter nonempty_node (map prune ch)))
  == sumQ (map totalHours ch).
Proof.
  unfold sumQ, nonempty_node.
  induction 1 as [|c ch Hc _ IH]; cbn [map filter fold_right]; [reflexivity|].
  destruct (prune_fields c) as (Eh & Ec & _). rewrite Ec.
  destruct (Nat.eqb_spec (entryCount c) O) as [Hz|Hz]; cbn [negb map fold_right].
  - rewrite IH, (Hc Hz). ring.
  - rewrite IH, Eh. reflexivity.
Qed.

Lemma pruned_count ch :
  sum_nat (map entryCount (filter nonempty_node (map prune ch)))
  = sum_nat (map entryCount ch).
Proof.
  unfold sum_nat, nonempty_node.
  induction ch as [|c ch IH]; cbn [map filter fold_right]; [reflexivity|].
  destruct (prune_fields c) as (_ & Ec & _). rewrite Ec.
  destruct (Nat.eqb_spec (entryCount c) O) as [Hz|Hz]; cbn [negb map fold_right].
  - rewrite IH, Hz. reflexivity.
  - rewrite IH, Ec. reflexivity.
Qed.

Lemma empty_node_no_hours c :
  (forall m, In m (nodes_of c) -> locally_ok E m) ->
  entryCount c = O -> totalHours c == 0.
Proof.
  intros Hall Hz. destruct (subtree_totals c Hall) as (sub & _ & _ & Hh & Hc).
  rewrite Hz in Hc. symmetry in Hc. apply length_zero_iff_nil in Hc.
  rewrite Hh, Hc. reflexivity.
Qed.

Lemma prune_locally_ok n :
  (forall m, In m (nodes_of n) -> locally_ok E m) ->
  forall m, In m (nodes_of (prune n)) -> locally_ok E m.
Proof.
  induction n as [i d v dn l h c ch es x IH] using GroupNode_forall_ind.
  intros Hall m Hm.
  assert (Hkid : forall k, In k ch ->
                   forall y, In y (nodes_of k) -> locally_ok E y).
  { intros k Hk y Hy. apply Hall.
    eapply (nodes_of_child (mkGroupNode i d v dn l h c ch es x)); eassumption. }
  cbn [prune nodes_of] in Hm. destruct Hm as [<-|Hm].
  - destruct (Hall _ (nodes_of_self _)) as (own & Hi & He & Hh & Hc).
    cbn [totalHours entryCount children entries] in He, Hh, Hc.
    exists own. cbn [totalHours entryCount children entries].
    rewrite pruned_count. repeat split; try assumption.
    rewrite pruned_hours; [exact Hh|].
    apply Forall_forall. intros k Hk. apply empty_node_no_hours, Hkid, Hk.
  - apply in_flat_map in Hm. destruct Hm as [k' [Hk' Hm]].
    apply filter_In in Hk'. destruct Hk' as [Hk' _].
    apply in_map_iff in Hk'. destruct Hk' as [k [<- Hk]].
    rewrite Forall_forall in IH.
    eapply IH; [exact Hk | apply Hkid, Hk | exact Hm].
Qed.

Lemma prune_forest_locally_ok forest :
  (forall m, In m (forest_nodes forest) -> locally_ok E m) ->
  forall m, In m (forest_nodes (prune_forest forest)) -> locally_ok E m.
Proof.
  intros Hall m Hm. unfold forest_nodes, prune_forest in Hm.
  apply in_flat_map in Hm. destruct Hm as [k' [Hk' Hm]].
  apply filter_In in Hk'. destruct Hk' as [Hk' _].
  apply in_map_iff in Hk'. destruct Hk' as [k [<- Hk]].
  eapply prune_locally_ok; [|exact Hm].
  intros y Hy. apply Hall. unfold forest_nodes.
  apply in_flat_map. exists k. split; assumption.
Qed.

Lemma build_locally_ok G m :
  In m (forest_nodes (build bucket_start E G)) -> locally_ok E m.
Proof.
  unfold build. destruct (levels G) as [|lvl rest] eqn:HL.
  - apply ungrouped_root_locally_ok.
  - destruct (collapseEmptyGroups G).
    + apply prune_forest_locally_ok.
      apply build_levels_locally_ok, incl_refl.
    + apply build_levels_locally_ok, incl_refl.
Qed.

End Aggregates.

(** C6: for every forest the group tree builder produces, every node's
    [totalHours] is the sum of its children's [totalHours] plus the hours
    of the entries it owns, it equals the sum of the hours of the entries
    of its subtree (within 1e-9), and its [entryCount] is the number of
    entries of its subtree.  The node lists its entries by identifier:
    when the identifiers of the input are distinct, the hours are those
    the lookup by identifier finds. *)
Theorem build_aggregates
  (bucket_start : option DateGroupingType -> string -> string)
  (E : list TimesheetEntry.t) (G : GroupingConfig) (n : GroupNode) :
  In n (forest_nodes (build bucket_start E G)) ->
  owned_aggregates E n
  /\ (NoDup (map TimesheetEntry.id E) -> aggregates_ok E n).
Proof.
  intros Hn.
  assert (owned_aggregates E n) as H.
  { eapply locally_ok_aggregates; [|exact Hn].
    intros m Hm. eapply build_locally_ok; eassumption. }
  split; [exact H|]. intros Hnd. apply owned_aggregates_lookup; assumption.
Qed.

Lemma build_aggregates_witness :
  aggregates_ok scenario_A_entries
    (mkGroupNode "/project:A" project "A" "A" 0 (2 + (3 + 0) + 0) 2 []
       ["w2"%string; "w3"%string] true).
Proof.
  apply (build_aggregates by_day scenario_A_entries by_project_name).
  - left. reflexivity.
  - repeat constructor; simpl; intuition discriminate.
Defined.

End GroupingFacts.

(* ================================================================== *)
(** * More on [parseJiraTimeSpent] and [formatHoursAsJiraTime] *)
(* ================================================================== *)

Module JiraMoreFacts.
Import Chars Regex Jira JiraShapes CharsFacts RegexFacts JiraFacts.

Local Open Scope Q_scope.

(** ** Parsing *)




Lemma match_here_no_digit c s :
  Forall (fun x => is_digit x = false) s -> match_here c s = None.
Proof.
  intros H. destruct H as [|x s Hx _]; [reflexivity|].
  cbn [match_here]. rewrite Hx. reflexivity.
Qed.

Lemma regex_match_no_digit c s :
  Forall (fun x => is_digit x = false) s -> regex_match c s = None.
Proof.
  induction 1 as [|x s Hx Hs IH]; [reflexivity|].
  rewrite regex_match_skip by exact Hx. exact IH.
Qed.

(** X2: [parseJiraTimeSpent] returns 0 on every string without a digit,
    the empty string among them: a string it cannot read is not an
    error. *)
Theorem parseJiraTimeSpent_no_digit (s : string) :
  Forall (fun x => is_digit x = false) (list_ascii_of_string s) ->
  parseJiraTimeSpent s == 0.
Proof.
  intros H. unfold parseJiraTimeSpent, parseJiraTimeSpent_chars.
  rewrite !regex_match_no_digit by exact H. reflexivity.
Qed.

Lemma parseJiraTimeSpent_no_digit_witness :
  parseJiraTimeSpent "two hours" == 0.
Proof.
  apply (parseJiraTimeSpent_no_digit "two hours").
  repeat constructor.
Defined.

(** ** Formatting *)

Lemma Qfloor_unique (x : Q) (z : Z) :
  inject_Z z <= x -> x < inject_Z z + 1 -> Qfloor x = z.
Proof.
  intros Hl Hu.
  pose proof (Qfloor_le x) as Fl. pose proof (Qlt_floor x) as Fu.
  rewrite inject_Z_plus in Fu. change (inject_Z 1) with 1 in Fu.
  assert (inject_Z (Qfloor x) < inject_Z (z + 1)) as H1
    by (rewrite inject_Z_plus; change (inject_Z 1) with 1; lra).
  assert (inject_Z z < inject_Z (Qfloor x + 1)) as H2
    by (rewrite inject_Z_plus; change (inject_Z 1) with 1; lra).
  rewrite <- Zlt_Qlt in H1, H2. lia.
Qed.





Section MinuteGrid.
Variables w m : N.
Hypothesis m_below : (m < 60)%N.



End MinuteGrid.



(** *** Negative hours *)





(** *** The characters written *)








(** *** Sixty minutes *)

(** X6: for 0 <= h < 10^21 whose fractional part is at least 119/120, the
    minutes round up to 60 and are written as such, after the unchanged
    whole hours: the result is "60m" or "Wh 60m", never "(W+1)h". *)
Theorem format_writes_60m (h : Q) :
  0 <= h -> h < inject_Z (10 ^ 21) ->
  (119 # 120) <= h - inject_Z (Math_floor h) ->
  formatHoursAsJiraTime h =
  time_string
    ((if (0 <? Math_floor h)%Z then [(Z.to_N (Math_floor h), "h")] else [])
     ++ [(60%N, "m")]).
Proof.
  intros H0 H1 Hf. destruct (whole_bounds h) as [Hl Hu].
  assert (Math_round ((h - inject_Z (Math_floor h)) * 60) = 60%Z) as Hm.
  { unfold Math_round. apply Qfloor_unique; change (inject_Z 60) with 60; lra. }
  unfold formatHoursAsJiraTime, time_string. f_equal.
  rewrite (format_is_components h H0 H1). unfold format_tokens.
  rewrite Hm. rewrite andb_false_r. reflexivity.
Qed.

Lemma format_writes_60m_witness :
  formatHoursAsJiraTime (1999 # 1000) =
  time_string
    ((if (0 <? Math_floor (1999 # 1000))%Z
      then [(Z.to_N (Math_floor (1999 # 1000)), "h")] else [])
     ++ [(60%N, "m")]).
Proof.
  apply (format_writes_60m (1999 # 1000));
    [discriminate | reflexivity | discriminate].
Defined.

End JiraMoreFacts.

(* ================================================================== *)
(** * [sanitizeSearchText], and more on [sanitizeFileName] *)
(* ================================================================== *)

Module SearchTextFacts.
Import Chars SearchText.
Local Open Scope string_scope.

Example search_text_plain : sanitizeSearchText "  fix login  " = "fix login".
Proof. reflexivity. Qed.

Example search_text_tag : sanitizeSearchText "<b>bold</b>" = "bbold/b".
Proof. reflexivity. Qed.

Example search_text_inner_space : sanitizeSearchText "< a" = " a".
Proof. reflexivity. Qed.

Local Close Scope string_scope.

















End SearchTextFacts.

Module SanitizeMoreFacts.
Import Chars Sanitize FileNameShapes SanitizeFacts.

Lemma is_us_not_allowed c : is_us c = true -> allowed c = false.
Proof. intros H. rewrite (is_us_eq c H). reflexivity. Qed.

(** *** The allowed characters survive, in order *)

Lemma replace_disallowed_allowed s :
  allowed_chars (replace_disallowed s) = allowed_chars s.
Proof.
  unfold allowed_chars, replace_disallowed.
  induction s as [|c s IH]; [reflexivity|].
  cbn [map filter]. destruct (allowed c) eqn:Hc.
  - rewrite Hc, IH. reflexivity.
  - rewrite us_not_allowed. exact IH.
Qed.

Lemma emit_allowed run : allowed_chars (emit run) = [].
Proof. destruct run as [|[|run]]; reflexivity. Qed.

Lemma allowed_chars_app s t :
  allowed_chars (s ++ t) = allowed_chars s ++ allowed_chars t.
Proof. apply filter_app. Qed.

Lemma collapse_from_allowed s : forall run,
  allowed_chars (collapse_from run s) = allowed_chars s.
Proof.
  induction s as [|c s IH]; intros run; cbn [collapse_from].
  - apply emit_allowed.
  - destruct (is_us c) eqn:Hc.
    + rewrite IH. unfold allowed_chars. cbn [filter].
      rewrite (is_us_not_allowed c Hc). reflexivity.
    + rewrite allowed_chars_app, emit_allowed. cbn [app].
      unfold allowed_chars in *. cbn [filter]. rewrite IH. reflexivity.
Qed.

Lemma strip_last_allowed s : allowed_chars (strip_last s) = allowed_chars s.
Proof.
  unfold allowed_chars.
  induction s as [|c s IH]; [reflexivity|].
  destruct s as [|c' s'].
  - cbn [strip_last]. destruct (is_us c) eqn:Hc; [|reflexivity].
    cbn [filter]. rewrite (is_us_not_allowed c Hc). reflexivity.
  - change (strip_last (c :: c' :: s')) with (c :: strip_last (c' :: s')).
    cbn [filter] in *. rewrite IH. reflexivity.
Qed.

Lemma strip_edges_allowed s : allowed_chars (strip_edges s) = allowed_chars s.
Proof.
  destruct s as [|c s]; [reflexivity|].
  cbn [strip_edges]. destruct (is_us c) eqn:Hc.
  - rewrite strip_last_allowed. unfold allowed_chars. cbn [filter].
    rewrite (is_us_not_allowed c Hc). reflexivity.
  - apply strip_last_allowed.
Qed.

Lemma sanitize_chars_allowed s :
  allowed_chars (sanitizeFileName_chars s) = allowed_chars s.
Proof.
  unfold sanitizeFileName_chars, collapse_underscores.
  rewrite strip_edges_allowed, collapse_from_allowed.
  apply replace_disallowed_allowed.
Qed.

(** *** Lengths *)

Lemma emit_length run : (List.length (emit run) <= 1)%nat.
Proof. destruct run as [|[|run]]; cbn; lia. Qed.

Lemma collapse_from_length s : forall run,
  (List.length (collapse_from run s)
   <= List.length (emit run) + List.length s)%nat.
Proof.
  induction s as [|c s IH]; intros run; cbn [collapse_from].
  - cbn [List.length]. lia.
  - destruct (is_us c).
    + specialize (IH (S run)). pose proof (emit_length (S run)).
      cbn [List.length]. lia.
    + rewrite length_app. specialize (IH O). cbn [List.length emit] in *. lia.
Qed.

Lemma strip_last_length s : (List.length (strip_last s) <= List.length s)%nat.
Proof.
  induction s as [|c s IH]; [cbn; lia|].
  destruct s as [|c' s'].
  - cbn [strip_last]. destruct (is_us c); cbn; lia.
  - change (strip_last (c :: c' :: s')) with (c :: strip_last (c' :: s')).
    cbn [List.length] in *. lia.
Qed.

Lemma strip_edges_length s : (List.length (strip_edges s) <= List.length s)%nat.
Proof.
  destruct s as [|c s]; [cbn; lia|].
  cbn [strip_edges]. destruct (is_us c).
  - pose proof (strip_last_length s). cbn [List.length]. lia.
  - apply strip_last_length.
Qed.

Lemma sanitize_chars_length s :
  (List.length (sanitizeFileName_chars s) <= List.length s)%nat.
Proof.
  unfold sanitizeFileName_chars, collapse_underscores.
  pose proof (strip_edges_length (collapse_from O (replace_disallowed s))).
  pose proof (collapse_from_length (replace_disallowed s) O).
  unfold replace_disallowed in *. rewrite length_map in *.
  cbn [emit List.length] in *. lia.
Qed.

(** *** Fixed points *)

Lemma sanitize_chars_well_shaped s : well_shaped (sanitizeFileName_chars s).
Proof. apply sanitize_chars_shape. Qed.

Lemma sanitize_chars_id_iff s :
  sanitizeFileName_chars s = s <-> well_shaped s.
Proof.
  split.
  - intros <-. apply sanitize_chars_well_shaped.
  - intros (Hc & Hd & Hs & He). apply sanitize_chars_fixpoint; assumption.
Qed.

Lemma string_chars_inj (s t : string) :
  list_ascii_of_string s = list_ascii_of_string t -> s = t.
Proof.
  intros H. rewrite <- (string_of_list_ascii_of_string s).
  rewrite <- (string_of_list_ascii_of_string t). rewrite H. reflexivity.
Qed.

Lemma string_length_chars (l : chars) :
  String.length (string_of_list_ascii l) = List.length l.
Proof.
  induction l as [|c l IH]; [reflexivity|].
  cbn [string_of_list_ascii String.length List.length]. rewrite IH.
  reflexivity.
Qed.

(** X9: the names [sanitizeFileName] leaves unchanged are exactly the
    names made of characters of [a-zA-Z0-9.-] and single underscores with
    no underscore at either end; every other name is changed. *)
Theorem sanitizeFileName_fixed_points (s : string) :
  sanitizeFileName s = s <-> well_shaped (list_ascii_of_string s).
Proof.
  rewrite <- sanitize_chars_id_iff. unfold sanitizeFileName. split.
  - intros H. apply (f_equal list_ascii_of_string) in H.
    rewrite list_ascii_of_string_of_list_ascii in H. exact H.
  - intros H. rewrite H. apply string_of_list_ascii_of_string.
Qed.

(** X10: [sanitizeFileName] keeps every character of [a-zA-Z0-9.-] of
    its input, in the same order: the characters of that class read off
    the result are those read off the input; and the result is never
    longer than the input. *)
Theorem sanitizeFileName_keeps_allowed (s : string) :
  allowed_chars (list_ascii_of_string (sanitizeFileName s))
  = allowed_chars (list_ascii_of_string s)
  /\ (String.length (sanitizeFileName s) <= String.length s)%nat.
Proof.
  unfold sanitizeFileName.
  rewrite list_ascii_of_string_of_list_ascii.
  split; [apply sanitize_chars_allowed|].
  rewrite <- (string_of_list_ascii_of_string s) at 2.
  rewrite !string_length_chars. apply sanitize_chars_length.
Qed.

(** X11: [sanitizeFileName] returns the empty string exactly when its
    input has no character of [a-zA-Z0-9.-]: a name made only of other
    characters (spaces, slashes, underscores, non-Latin letters) leaves
    no file name at all. *)
Theorem sanitizeFileName_empty_iff (s : string) :
  sanitizeFileName s = ""%string
  <-> allowed_chars (list_ascii_of_string s) = [].
Proof.
  unfold sanitizeFileName.
  rewrite <- (sanitize_chars_allowed (list_ascii_of_string s)).
  destruct (sanitize_chars_shape (list_ascii_of_string s))
    as (Hc & _ & Hs & _).
  destruct (sanitizeFileName_chars (list_ascii_of_string s)) as [|c r].
  - split; reflexivity.
  - split; [discriminate|]. intros H. exfalso.
    inversion Hc as [|? ? Hn _]; subst. destruct Hn as [Ha| ->].
    + unfold allowed_chars in H. cbn [filter] in H. rewrite Ha in H.
      discriminate.
    + cbn in Hs. discriminate.
Qed.

End SanitizeMoreFacts.

(* ================================================================== *)
(** * zod: paths do not matter, and parsing twice *)
(* ================================================================== *)

Module ZodMoreFacts.
Import Js Zod ZodMore ZodFacts.

Local Open Scope string_scope.

(** ** Induction on schemas *)

Section SchemaInduction.
Variable P : Schema -> Prop.
Hypothesis on_string : forall checks, P (ZString checks).
Hypothesis on_number : forall checks, P (ZNumber checks).
Hypothesis on_boolean : P ZBoolean.
Hypothesis on_enum : forall values, P (ZEnum values).
Hypothesis on_any : P ZAny.
Hypothesis on_optional : forall inner, P inner -> P (ZOptional inner).
Hypothesis on_array : forall element, P element -> P (ZArray element).
Hypothesis on_object :
  forall shape, Forall (fun ks => P (snd ks)) shape -> P (ZObject shape).

Fixpoint Schema_forall_ind (s : Schema) : P s :=
  match s with
  | ZString checks => on_string checks
  | ZNumber checks => on_number checks
  | ZBoolean => on_boolean
  | ZEnum values => on_enum values
  | ZAny => on_any
  | ZOptional inner => on_optional inner (Schema_forall_ind inner)
  | ZArray element => on_array element (Schema_forall_ind element)
  | ZObject shape =>
      on_object shape
        ((fix all (sh : list (string * Schema))
            : Forall (fun ks => P (snd ks)) sh :=
            match sh with
            | [] => Forall_nil _
            | ks :: sh' =>
                Forall_cons ks (Schema_forall_ind (snd ks)) (all sh')
            end) shape)
  end.
End SchemaInduction.

Section Paths.
Context {formats : Formats}.

Lemma parse_object_value shape p props :
  snd (parse (ZObject shape) p (VObj props)) =
  VObj (filter (keep_property props) (parsed_fields shape p props)).
Proof.
  cbn [parse snd]. unfold parsed_fields. do 2 f_equal.
  induction shape as [|[k sk] sh IH]; [reflexivity|].
  cbn [map fst snd]. f_equal. exact IH.
Qed.

Lemma string_check_path p q str c :
  string_check p str c = [] -> string_check q str c = [].
Proof.
  destruct c; cbn [string_check];
    [destruct (is_email str) | destruct (is_url str)];
    (reflexivity || discriminate).
Qed.

Lemma number_check_path p q n c :
  number_check p n c = [] -> number_check q n c = [].
Proof.
  destruct c as [|b]; cbn [number_check];
    [destruct (gt0 n) | destruct (le_num n (inject_Z (Z.of_N b)))];
    (reflexivity || discriminate).
Qed.

Lemma checks_path {A C} (check : list PathKey -> A -> C -> list ZodIssue)
  (p q : list PathKey) (a : A) (checks : list C) :
  (forall c, check p a c = [] -> check q a c = []) ->
  flat_map (check p a) checks = [] -> flat_map (check q a) checks = [].
Proof.
  intros Hc H. apply flat_map_nil. apply flat_map_nil in H.
  eapply Forall_impl; [|exact H]. exact Hc.
Qed.

Lemma parse_items_path (f : list PathKey -> value -> list ZodIssue * value) :
  (forall p q data,
      (fst (f p data) = [] -> fst (f q data) = [])
      /\ snd (f p data) = snd (f q data)) ->
  forall items p q i j,
    (List.concat (map fst (parse_items f p i items)) = [] ->
     List.concat (map fst (parse_items f q j items)) = [])
    /\ map snd (parse_items f p i items) = map snd (parse_items f q j items).
Proof.
  intros Hf. induction items as [|x items IH]; intros p q i j.
  - split; reflexivity.
  - cbn [parse_items map List.concat].
    destruct (IH p q (N.succ i) (N.succ j)) as [IH1 IH2].
    destruct (Hf (p ++ [PIndex i])%list (q ++ [PIndex j])%list x) as [H1 H2].
    split.
    + intros H. apply app_eq_nil in H. destruct H as [Ha Hb].
      rewrite (H1 Ha), (IH1 Hb). reflexivity.
    + rewrite H2, IH2. reflexivity.
Qed.

Lemma path_free_all s : path_free s.
Proof.
  induction s as [checks|checks| |values| |inner IH|element IH|shape IH]
    using Schema_forall_ind; intros p q data; unfold accepts.
  - destruct data; cbn [parse fst snd]; split; try reflexivity;
      try discriminate.
    apply checks_path. intros c. apply string_check_path.
  - destruct data as [| | |n| | | |]; cbn [parse fst snd]; split;
      try reflexivity; try discriminate;
      destruct n; cbn [fst snd]; try reflexivity; try discriminate;
      apply checks_path; intros c; apply number_check_path.
  - destruct data; cbn [parse fst snd]; split; try reflexivity;
      try discriminate.
  - destruct data; cbn [parse fst snd]; split; try reflexivity;
      try discriminate;
      destruct (existsb (String.eqb s) values); cbn [fst snd];
      try reflexivity; try discriminate.
  - split; reflexivity.
  - destruct data; cbn [parse]; try apply IH. split; reflexivity.
  - destruct data as [| | | | |items| |]; cbn [parse fst snd]; split;
      try reflexivity; try discriminate.
    + apply (parse_items_path (parse element)). exact IH.
    + f_equal. apply (parse_items_path (parse element)). exact IH.
  - destruct data as [| | | | | |props|];
      try (cbn [parse fst snd]; split; [discriminate | reflexivity]).
    rewrite !parse_object_issues, !parse_object_value. split.
    + rewrite !concat_nil, !Forall_map. intros H.
      rewrite Forall_forall in IH, H |- *. intros ks Hks.
      exact (proj1 (IH ks Hks _ _ _) (H ks Hks)).
    + do 2 f_equal. unfold parsed_fields. apply map_ext_in.
      intros ks Hks. rewrite Forall_forall in IH. f_equal.
      apply (IH ks Hks).
Qed.

Lemma accepts_path s p q data : accepts s p data <-> accepts s q data.
Proof. split; apply path_free_all. Qed.

Lemma parse_value_path s p q data :
  snd (parse s p data) = snd (parse s q data).
Proof. apply path_free_all. Qed.

(** An array is accepted exactly when each of its items is. *)
Lemma accepts_array_iff s p data :
  accepts (ZArray s) p data <->
  exists items, data = VArr items /\ Forall (accepts s []) items.
Proof.
  split.
  - intros H. apply accepts_array_items in H.
    destruct H as [items [-> Hall]]. exists items. split; [reflexivity|].
    apply Forall_forall. intros item Hin.
    destruct (Hall item Hin) as [q Hq]. eapply accepts_path. exact Hq.
  - intros [items [-> Hall]]. apply accepts_array_all.
    intros item q Hin. rewrite Forall_forall in Hall.
    eapply accepts_path. apply Hall. exact Hin.
Qed.

(** ** Parsing the parsed value *)

Lemma distinct_NoDup keys : distinct keys = true -> NoDup keys.
Proof.
  induction keys as [|k keys IH]; cbn [distinct]; intros H; [constructor|].
  apply andb_prop in H. destruct H as [H1 H2].
  constructor; [|apply IH; exact H2].
  intros Hin. apply negb_true_iff in H1.
  assert (existsb (String.eqb k) keys = true) as E.
  { apply existsb_exists. exists k. split; [exact Hin | apply String.eqb_refl]. }
  congruence.
Qed.

Lemma distinct_keys_object shape :
  distinct_keys (ZObject shape) = true ->
  NoDup (map fst shape)
  /\ Forall (fun ks => distinct_keys (snd ks) = true) shape.
Proof.
  cbn [distinct_keys]. intros H. apply andb_prop in H. destruct H as [H1 H2].
  split; [apply distinct_NoDup; exact H1|].
  clear H1. induction shape as [|[k sk] sh IH]; [constructor|].
  apply andb_prop in H2. destruct H2 as [Ha Hb].
  constructor; [exact Ha | apply IH; exact Hb].
Qed.

Section Kept.
Variable keep : string * value -> bool.
Variable val : string * Schema -> value.

Let entry (ks : string * Schema) : string * value := (fst ks, val ks).

Lemma get_kept_absent sh k :
  ~ In k (map fst sh) ->
  get (filter keep (map entry sh)) k = VUndefined
  /\ has (filter keep (map entry sh)) k = false.
Proof.
  induction sh as [|ks sh IH]; intros Hk; [split; reflexivity|].
  cbn [map] in Hk.
  assert (fst ks <> k) as Hne by (intros E; apply Hk; left; exact E).
  assert (~ In k (map fst sh)) as Hk' by (intros E; apply Hk; right; exact E).
  destruct (IH Hk') as [IH1 IH2].
  cbn [map filter]. destruct (keep (entry ks)); [|split; assumption].
  unfold has in *. cbn [get existsb fst entry].
  destruct (String.eqb_spec (fst ks) k); [contradiction|].
  split; assumption.
Qed.

Lemma get_kept sh ks :
  NoDup (map fst sh) -> In ks sh ->
  get (filter keep (map entry sh)) (fst ks)
  = (if keep (entry ks) then val ks else VUndefined)
  /\ has (filter keep (map entry sh)) (fst ks) = keep (entry ks).
Proof.
  induction sh as [|ks0 sh IH]; intros Hnd Hin; [destruct Hin|].
  cbn [map] in Hnd. inversion Hnd as [|? ? Hnotin Hnd']; subst.
  cbn [map filter]. destruct Hin as [->|Hin].
  - destruct (keep (entry ks)) eqn:Hk.
    + unfold has. cbn [get existsb fst entry].
      rewrite String.eqb_refl. split; reflexivity.
    + apply get_kept_absent. exact Hnotin.
  - assert (fst ks0 <> fst ks) as Hne.
    { intros E. apply Hnotin. rewrite E. apply in_map. exact Hin. }
    destruct (IH Hnd' Hin) as [IH1 IH2].
    destruct (keep (entry ks0)); [|split; assumption].
    unfold has in *. cbn [get existsb fst entry].
    destruct (String.eqb_spec (fst ks0) (fst ks)); [contradiction|].
    split; assumption.
Qed.

End Kept.

Lemma parse_items_again
  (f : list PathKey -> value -> list ZodIssue * value) items :
  forall p q i j,
  (forall item, In item items ->
     forall p' q', fst (f p' item) = [] ->
                   f q' (snd (f p' item)) = ([], snd (f p' item))) ->
  List.concat (map fst (parse_items f p i items)) = [] ->
  parse_items f q j (map snd (parse_items f p i items))
  = map (fun r => (@nil ZodIssue, snd r)) (parse_items f p i items).
Proof.
  induction items as [|x items IH]; intros p q i j Hf H; [reflexivity|].
  cbn [parse_items map List.concat] in *.
  apply app_eq_nil in H. destruct H as [Ha Hb].
  rewrite (Hf x (or_introl eq_refl) _ _ Ha). f_equal.
  apply IH; [|exact Hb]. intros item Hin. apply Hf. right. exact Hin.
Qed.

Lemma no_issue_values {A} (rs : list (list ZodIssue * A)) :
  List.concat (map fst (map (fun r => (@nil ZodIssue, snd r)) rs)) = []
  /\ map snd (map (fun r => (@nil ZodIssue, snd r)) rs) = map snd rs.
Proof.
  induction rs as [|r rs [IH1 IH2]]; [split; reflexivity|].
  cbn [map List.concat fst snd app]. split; [exact IH1 | f_equal; exact IH2].
Qed.

Lemma keep_false props kv :
  keep_property props kv = false -> snd kv = VUndefined.
Proof.
  unfold keep_property. intros H. apply orb_false_elim in H.
  destruct H as [_ H]. destruct (snd kv); (reflexivity || discriminate).
Qed.

Lemma reparses_all s : distinct_keys s = true -> reparses s.
Proof.
  induction s as [checks|checks| |values| |inner IH|element IH|shape IH]
    using Schema_forall_ind; intros Hwf p q data; unfold accepts.
  - destruct data; cbn [parse fst snd]; try discriminate.
    intros H. rewrite (checks_path string_check p q s checks); [reflexivity| |exact H].
    intros c. apply string_check_path.
  - destruct data as [| | |n| | | |]; cbn [parse fst snd]; try discriminate.
    destruct n; cbn [parse fst snd]; try discriminate; intros H;
      (rewrite (checks_path number_check p q _ checks);
       [reflexivity | intros c; apply number_check_path | exact H]).
  - destruct data; cbn [parse fst snd]; try discriminate. reflexivity.
  - destruct data; cbn [parse fst snd]; try discriminate.
    destruct (existsb (String.eqb s) values) eqn:E; cbn [fst snd];
      [|discriminate].
    intros _. cbn [parse]. rewrite E. reflexivity.
  - reflexivity.
  - cbn [distinct_keys] in Hwf. specialize (IH Hwf).
    destruct data; cbn [parse]; try reflexivity; intros H;
      match goal with
      | |- context [snd (parse inner p ?d)] =>
          pose proof (IH p q d H) as IHd;
          destruct (snd (parse inner p d)); try exact IHd; reflexivity
      end.
  - cbn [distinct_keys] in Hwf. specialize (IH Hwf).
    destruct data as [| | | | |items| |]; cbn [parse fst snd];
      try discriminate.
    intros H. rewrite (parse_items_again (parse element) items p q 0%N 0%N).
    + destruct (no_issue_values (parse_items (parse element) p 0%N items))
        as [E1 E2].
      rewrite E1, E2. reflexivity.
    + intros item _ p' q' Hi. apply IH. exact Hi.
    + exact H.
  - destruct (distinct_keys_object shape Hwf) as [Hnd Hsub].
    destruct data as [| | | | | |props|]; try (cbn [parse fst]; discriminate).
    rewrite parse_object_issues, concat_nil, Forall_map. intros Hacc.
    rewrite parse_object_value.
    set (out := filter (keep_property props) (parsed_fields shape p props)).
    assert (Hget : forall ks, In ks shape ->
              get out (fst ks)
              = snd (parse (snd ks) (p ++ [PKey (fst ks)])%list
                       (get props (fst ks)))
              /\ has out (fst ks)
                 = keep_property props
                     (fst ks,
                      snd (parse (snd ks) (p ++ [PKey (fst ks)])%list
                             (get props (fst ks))))).
    { intros ks Hks. subst out. unfold parsed_fields.
      destruct (get_kept (keep_property props)
                  (fun ks => snd (parse (snd ks) (p ++ [PKey (fst ks)])%list
                                    (get props (fst ks))))
                  shape ks Hnd Hks) as [G1 G2].
      split; [|exact G2]. rewrite G1.
      match goal with
      | |- (if ?b then _ else _) = _ => destruct b eqn:Hk
      end; [reflexivity|].
      apply keep_false in Hk. cbn [snd] in Hk. symmetry. exact Hk. }
    assert (Hre : forall ks, In ks shape ->
              parse (snd ks) (q ++ [PKey (fst ks)])%list (get out (fst ks))
              = ([], snd (parse (snd ks) (p ++ [PKey (fst ks)])%list
                            (get props (fst ks))))).
    { intros ks Hks. rewrite (proj1 (Hget ks Hks)).
      rewrite Forall_forall in IH, Hsub, Hacc.
      apply (IH ks Hks (Hsub ks Hks)). apply Hacc. exact Hks. }
    assert (Hfields : parsed_fields shape q out = parsed_fields shape p props).
    { unfold parsed_fields. apply map_ext_in. intros ks Hks.
      rewrite (Hre ks Hks). reflexivity. }
    rewrite (surjective_pairing (parse (ZObject shape) q (VObj out))).
    rewrite parse_object_issues, parse_object_value, Hfields. f_equal.
    + apply concat_nil. rewrite Forall_map. apply Forall_forall.
      intros ks Hks. rewrite (Hre ks Hks). reflexivity.
    + f_equal. fold out. subst out. apply filter_ext_in.
      intros kv Hkv. unfold parsed_fields in Hkv.
      apply in_map_iff in Hkv. destruct Hkv as [ks [<- Hks]].
      unfold keep_property at 1. cbn [fst snd].
      rewrite (proj2 (Hget ks Hks)). unfold keep_property. cbn [fst snd].
      destruct (has props (fst ks)); cbn [orb]; [reflexivity|].
      destruct (snd (parse (snd ks) (p ++ [PKey (fst ks)]) (get props (fst ks))));
        reflexivity.
Qed.

End Paths.

End ZodMoreFacts.

(* ================================================================== *)
(** * The other validators and guards *)
(* ================================================================== *)

Module MoreValidationFacts.
Import Js Zod ZodMore Types Validation Shapes MoreTypes.
Import ZodFacts ValidationFacts ZodMoreFacts.

Local Open Scope string_scope.

Ltac split_all := repeat match goal with |- _ /\ _ => split end.
Ltac in_shape := cbn [In]; repeat (first [left; reflexivity | right]).

Section Generic.
Context {formats : Formats}.

Lemma validate_Return s x m y :
  validateData (zod s) x m = Return y ->
  accepts s [] x /\ y = snd (parse s [] x).
Proof.
  unfold validateData. destruct (safeParse (zod s) x) as [d|e] eqn:E;
    [|discriminate].
  intros H. injection H as <-. apply safeParse_Success. exact E.
Qed.

Lemma validate_accepted s x m :
  accepts s [] x -> validateData (zod s) x m = Return (snd (parse s [] x)).
Proof.
  unfold accepts, validateData. cbn [safeParse zod]. intros H.
  destruct (parse s [] x) as [issues out]. cbn [fst snd] in *. subst issues.
  reflexivity.
Qed.

Lemma returns_accepts s x m :
  returns (validateData (zod s) x m) <-> accepts s [] x.
Proof. apply returns_iff_accepts. Qed.

Lemma guard_accepts s x :
  success (safeParse (zod s) x) = true <-> accepts s [] x.
Proof. apply safeParse_success. Qed.

(** An object schema accepts the objects whose properties its shape
    accepts, whatever the path. *)
Lemma accepts_object_fields shape p x :
  accepts (ZObject shape) p x <->
  is_object x
  /\ Forall (fun ks => accepts (snd ks) [] (field x (fst ks))) shape.
Proof.
  rewrite accepts_object. split.
  - intros [props [-> H]]. split; [exists props; reflexivity|].
    eapply Forall_impl; [|exact H]. intros ks Hks. cbn [field].
    eapply accepts_path. exact Hks.
  - intros [[props ->] H]. exists props. split; [reflexivity|].
    eapply Forall_impl; [|exact H]. intros ks Hks. cbn [field] in Hks.
    eapply accepts_path. exact Hks.
Qed.

Lemma accepted_field shape p x k sk :
  accepts (ZObject shape) p x -> In (k, sk) shape ->
  accepts sk [] (field x k).
Proof.
  intros H Hin. apply accepts_object_fields in H. destruct H as [_ H].
  rewrite Forall_forall in H. exact (H (k, sk) Hin).
Qed.

Lemma validate_array_iff s x m (P : value -> Prop) :
  (forall item, P item <-> accepts s [] item) ->
  returns (validateData (zod (ZArray s)) x m) <-> array_of P x.
Proof.
  intros HP. rewrite returns_accepts, accepts_array_iff. unfold array_of.
  split; intros [items [-> H]]; exists items; (split; [reflexivity|]);
    (eapply Forall_impl; [|exact H]); intros item Hi; apply HP; exact Hi.
Qed.

Lemma validate_twice s x m y :
  distinct_keys s = true ->
  validateData (zod s) x m = Return y ->
  validateData (zod s) y m = Return y
  /\ success (safeParse (zod s) y) = true.
Proof.
  intros Hd H. apply validate_Return in H. destruct H as [Ha ->].
  pose proof (reparses_all s Hd [] [] x Ha) as Hr.
  assert (accepts s [] (snd (parse s [] x))) as Ha'
    by (unfold accepts; rewrite Hr; reflexivity).
  split.
  - rewrite (validate_accepted _ _ _ Ha'), Hr. reflexivity.
  - apply guard_accepts. exact Ha'.
Qed.

End Generic.

(** ** Arrays *)

(** X12: [validateTimesheetEntries], [validateUsers] and
    [validateProjects] return exactly on an array whose every item passes
    the guard of its kind ([isTimesheetEntry], [isUser], [isProject]);
    the empty array passes, a value that is not an array is refused. *)
Theorem array_validators {formats : Formats} (x : value) :
  (returns (validateTimesheetEntries x)
   <-> array_of (fun item => isTimesheetEntry item = true) x)
  /\ (returns (validateUsers x)
      <-> array_of (fun item => isUser item = true) x)
  /\ (returns (validateProjects x)
      <-> array_of (fun item => isProject item = true) x).
Proof.
  repeat match goal with |- _ /\ _ => split end;
    apply validate_array_iff; intros item; apply guard_accepts.
Qed.

(** ** Validating twice *)

(** X13: what [validateGroupingConfig], [validateTimesheetEntry],
    [validateFilterState], [validateUser], [validateProject] and
    [validateIssue] return is a fixed point: validating the returned value
    again returns it unchanged, and the guard of the same schema accepts
    it. *)
Theorem validated_value_is_stable {formats : Formats} (x y : value) :
  (validateGroupingConfig x = Return y ->
   validateGroupingConfig y = Return y /\ isGroupingConfig y = true)
  /\ (validateTimesheetEntry x = Return y ->
      validateTimesheetEntry y = Return y /\ isTimesheetEntry y = true)
  /\ (validateFilterState x = Return y ->
      validateFilterState y = Return y /\ isFilterState y = true)
  /\ (validateUser x = Return y ->
      validateUser y = Return y /\ isUser y = true)
  /\ (validateProject x = Return y ->
      validateProject y = Return y /\ isProject y = true)
  /\ (validateIssue x = Return y ->
      validateIssue y = Return y /\ isIssue y = true).
Proof.
  repeat match goal with |- _ /\ _ => split end; intros H;
    eapply validate_twice in H; try reflexivity; exact H.
Qed.

Lemma validated_value_is_stable_witness :
  @validateGroupingConfig sample_formats
    (groupingConfig [groupingLevel "date" (Some "week")])
  = Return (groupingConfig [groupingLevel "date" (Some "week")])
  /\ @isGroupingConfig sample_formats
       (groupingConfig [groupingLevel "date" (Some "week")]) = true.
Proof.
  apply (proj1 (@validated_value_is_stable sample_formats
                  (VObj [("levels",
                          VArr [VObj [("expanded", VBool true);
                                      ("dateGroupingType", VStr "week");
                                      ("comment", VStr "dropped");
                                      ("sortOrder", VStr "asc");
                                      ("sortBy", VStr "name");
                                      ("dimension", VStr "date")]]);
                         ("collapseEmptyGroups", VBool true);
                         ("showGrandTotal", VBool true);
                         ("theme", VStr "dark");
                         ("showSubtotals", VBool true)])
                  (groupingConfig [groupingLevel "date" (Some "week")]))).
  reflexivity.
Defined.

(** ** Partial schemas *)

Section Partial.
Context {formats : Formats}.

Lemma accepts_partial shape p x :
  accepts (ZObject shape) p x -> accepts (partial (ZObject shape)) p x.
Proof.
  cbn [partial]. rewrite !accepts_object. intros [props [-> H]].
  exists props. split; [reflexivity|]. unfold partial_shape.
  rewrite Forall_map. eapply Forall_impl; [|exact H].
  intros ks Hks. cbn [fst snd]. apply accepts_optional. right. exact Hks.
Qed.

Lemma accepts_partial_empty shape p :
  accepts (partial (ZObject shape)) p (VObj []).
Proof.
  cbn [partial]. apply accepts_object. exists []. split; [reflexivity|].
  unfold partial_shape. rewrite Forall_map. apply Forall_forall.
  intros ks _. cbn [fst snd get]. apply accepts_optional. left. reflexivity.
Qed.

Lemma accepts_levels_iff l :
  accepts (ZArray GroupingLevelSchema) [] l
  <-> returns (validateGroupingConfig (config_with l)).
Proof.
  unfold validateGroupingConfig. rewrite returns_accepts.
  unfold GroupingConfigSchema. rewrite accepts_object_fields.
  rewrite !Forall_cons_iff. cbn [fst snd field get config_with String.eqb
    Ascii.eqb Bool.eqb andb].
  rewrite !accepts_boolean. split.
  - intros H. split; [eexists; reflexivity|].
    split; [exact H|]. repeat split; eauto.
  - intros (_ & H & _). exact H.
Qed.

End Partial.

(** X14: the partial validators accept whatever the full ones accept, and
    the empty object: [validateGroupingConfig x] returning implies
    [validatePartialGroupingConfig x] returning, and likewise for the
    filter state. *)
Theorem partial_validators_accept_more {formats : Formats} (x : value) :
  (returns (validateGroupingConfig x) ->
   returns (validatePartialGroupingConfig x))
  /\ (returns (validateFilterState x) ->
      returns (validatePartialFilterState x))
  /\ returns (validatePartialGroupingConfig (VObj []))
  /\ returns (validatePartialFilterState (VObj [])).
Proof.
  unfold validateGroupingConfig, validatePartialGroupingConfig,
    validateFilterState, validatePartialFilterState.
  rewrite !returns_accepts. split_all.
  - apply accepts_partial.
  - apply accepts_partial.
  - apply accepts_partial_empty.
  - apply accepts_partial_empty.
Qed.

Lemma partial_validators_accept_more_witness :
  returns (@validatePartialGroupingConfig sample_formats
             (groupingConfig [])).
Proof.
  apply (proj1 (@partial_validators_accept_more sample_formats
                  (groupingConfig []))).
  exists (groupingConfig []). reflexivity.
Defined.

(** X15: [validatePartialGroupingConfig] is partial at the top only.  It
    returns exactly on an object each of whose four properties is absent
    or valid in full: [levels], when present, has to be a value that
    [validateGroupingConfig] accepts as the levels of a configuration (an
    array of complete levels), and each flag, when present, a boolean. *)
Theorem partial_grouping_config_is_shallow {formats : Formats} (x : value) :
  returns (validatePartialGroupingConfig x)
  <-> is_object x
      /\ optional (fun l => returns (validateGroupingConfig (config_with l)))
           (field x "levels")
      /\ optional is_boolean (field x "showSubtotals")
      /\ optional is_boolean (field x "showGrandTotal")
      /\ optional is_boolean (field x "collapseEmptyGroups").
Proof.
  unfold validatePartialGroupingConfig. rewrite returns_accepts.
  unfold GroupingConfigSchema. cbn [partial partial_shape map fst snd].
  rewrite accepts_object_fields, !Forall_cons_iff. cbn [fst snd].
  rewrite !accepts_optional, !accepts_boolean. unfold optional, is_boolean.
  split.
  - intros (Ho & Hl & Ha & Hb & Hc & _).
    split; [exact Ho|]. split; [|split; [exact Ha | split; assumption]].
    destruct Hl as [Hl|Hl]; [left; exact Hl | right].
    apply accepts_levels_iff. exact Hl.
  - intros (Ho & Hl & Ha & Hb & Hc).
    split; [exact Ho|].
    split; [|split; [exact Ha | split; [exact Hb | split; [exact Hc|]]]].
    + destruct Hl as [Hl|Hl]; [left; exact Hl | right].
      apply accepts_levels_iff. exact Hl.
    + constructor.
Qed.

(** ** Unknown properties *)

Section Strip.
Context {formats : Formats}.

Lemma kept_keys shape p x :
  incl (keys_of (snd (parse (ZObject shape) p x))) (map fst shape)
  \/ snd (parse (ZObject shape) p x) = x /\ ~ is_object x.
Proof.
  destruct x as [| | | | | |props|];
    try (right; split; [reflexivity | intros [q H]; discriminate H]).
  left. rewrite parse_object_value. cbn [keys_of].
  intros k Hk. apply in_map_iff in Hk. destruct Hk as [kv [<- Hkv]].
  apply filter_In in Hkv. destruct Hkv as [Hkv _].
  unfold parsed_fields in Hkv. apply in_map_iff in Hkv.
  destruct Hkv as [ks [<- Hks]]. cbn [fst]. apply in_map. exact Hks.
Qed.

Lemma parse_items_values
  (f : list PathKey -> value -> list ZodIssue * value) items :
  forall p i out,
  In out (map snd (parse_items f p i items)) ->
  exists item q, In item items /\ out = snd (f q item).
Proof.
  induction items as [|x items IH]; intros p i out H; [destruct H|].
  cbn [parse_items map] in H. destruct H as [<-|H].
  - exists x, (p ++ [PIndex i])%list. split; [left; reflexivity | reflexivity].
  - destruct (IH _ _ _ H) as (item & q & Hin & E).
    exists item, q. split; [right; exact Hin | exact E].
Qed.

End Strip.

(** X16: [validateGroupingConfig] never returns a property it does not
    declare.  What it returns is an object with exactly the properties
    levels, showSubtotals, showGrandTotal and collapseEmptyGroups, in this
    order, the flags being those of the input; and every returned level
    has no property beyond dimension, sortBy, sortOrder, dateGroupingType
    and expanded. *)
Theorem validateGroupingConfig_strips_unknown {formats : Formats}
  (x y : value) :
  validateGroupingConfig x = Return y ->
  exists levels a b c,
    y = VObj [("levels", VArr levels);
              ("showSubtotals", VBool a);
              ("showGrandTotal", VBool b);
              ("collapseEmptyGroups", VBool c)]
    /\ field x "showSubtotals" = VBool a
    /\ field x "showGrandTotal" = VBool b
    /\ field x "collapseEmptyGroups" = VBool c
    /\ Forall (fun lvl => incl (keys_of lvl) level_keys) levels.
Proof.
  intros H. apply validate_Return in H. destruct H as [Ha ->].
  pose proof Ha as Hobj. unfold GroupingConfigSchema in Hobj.
  apply accepts_object in Hobj. destruct Hobj as [props [-> Hf]].
  inversion Hf as [|? ? Hl Hf1]; subst.
  inversion Hf1 as [|? ? H1 Hf2]; subst.
  inversion Hf2 as [|? ? H2 Hf3]; subst.
  inversion Hf3 as [|? ? H3 _]; subst.
  cbn [fst snd] in Hl, H1, H2, H3.
  apply accepts_boolean in H1, H2, H3.
  destruct H1 as [a Ea]. destruct H2 as [b Eb]. destruct H3 as [c Ec].
  apply accepts_array_items in Hl. destruct Hl as [items [El _]].
  exists (map snd (parse_items (parse GroupingLevelSchema)
                     ([] ++ [PKey "levels"])%list 0%N items)), a, b, c.
  cbn [field]. split; [|split_all; try assumption].
  - unfold GroupingConfigSchema. rewrite parse_object_value.
    unfold parsed_fields. cbn [map fst snd]. rewrite El, Ea, Eb, Ec.
    cbn [parse snd]. unfold keep_property. cbn [snd filter].
    rewrite !orb_true_r. reflexivity.
  - apply Forall_forall. intros out Hout.
    apply parse_items_values in Hout. destruct Hout as (item & q & _ & ->).
    unfold GroupingLevelSchema.
    match goal with
    | |- incl (keys_of (snd (parse (ZObject ?sh) q item))) _ =>
        destruct (kept_keys sh q item) as [Hk|[Hk Hn]]
    end.
    + exact Hk.
    + rewrite Hk. destruct item; cbn [keys_of]; try (intros ? []).
      exfalso. apply Hn. eexists. reflexivity.
Qed.

Lemma validateGroupingConfig_strips_unknown_witness :
  exists levels a b c,
    groupingConfig [groupingLevel "user" None]
    = VObj [("levels", VArr levels);
            ("showSubtotals", VBool a);
            ("showGrandTotal", VBool b);
            ("collapseEmptyGroups", VBool c)]
    /\ field (VObj [("owner", VStr "me");
                    ("levels", VArr [groupingLevel "user" None]);
                    ("showSubtotals", VBool true);
                    ("showGrandTotal", VBool true);
                    ("collapseEmptyGroups", VBool true)]) "showSubtotals"
       = VBool a
    /\ field (VObj [("owner", VStr "me");
                    ("levels", VArr [groupingLevel "user" None]);
                    ("showSubtotals", VBool true);
                    ("showGrandTotal", VBool true);
                    ("collapseEmptyGroups", VBool true)]) "showGrandTotal"
       = VBool b
    /\ field (VObj [("owner", VStr "me");
                    ("levels", VArr [groupingLevel "user" None]);
                    ("showSubtotals", VBool true);
                    ("showGrandTotal", VBool true);
                    ("collapseEmptyGroups", VBool true)])
         "collapseEmptyGroups" = VBool c
    /\ Forall (fun lvl => incl (keys_of lvl) level_keys) levels.
Proof.
  apply (@validateGroupingConfig_strips_unknown sample_formats
           (VObj [("owner", VStr "me");
                  ("levels", VArr [groupingLevel "user" None]);
                  ("showSubtotals", VBool true);
                  ("showGrandTotal", VBool true);
                  ("collapseEmptyGroups", VBool true)])).
  reflexivity.
Defined.

(** ** Guards of parts *)

Section Parts.
Context {formats : Formats}.

Lemma guard_field shape x k sk :
  success (safeParse (zod (ZObject shape)) x) = true ->
  In (k, sk) shape ->
  success (safeParse (zod sk) (field x k)) = true.
Proof.
  intros H Hin. apply guard_accepts. apply guard_accepts in H.
  eapply accepted_field; eassumption.
Qed.

Lemma guard_optional_field shape x k sk :
  success (safeParse (zod (ZObject shape)) x) = true ->
  In (k, ZOptional sk) shape ->
  optional (fun v => success (safeParse (zod sk) v) = true) (field x k).
Proof.
  intros H Hin. apply guard_accepts in H.
  pose proof (accepted_field _ _ _ _ _ H Hin) as Hf.
  apply accepts_optional in Hf. destruct Hf as [Hf|Hf]; [left; exact Hf|].
  right. apply guard_accepts. exact Hf.
Qed.

End Parts.

(** X17: the guards of [core.ts] compose.  A value that passes
    [isTimesheetEntry] has an [author] that passes [isUser] and an [issue]
    that passes [isIssue]; the [assignee] and [reporter] of a value that
    passes [isIssue], and the [lead] of one that passes [isProject], are
    absent or pass [isUser]. *)
Theorem entity_guards_compose {formats : Formats} (x : value) :
  (isTimesheetEntry x = true ->
   isUser (field x "author") = true /\ isIssue (field x "issue") = true)
  /\ (isIssue x = true ->
      optional (fun v => isUser v = true) (field x "assignee")
      /\ optional (fun v => isUser v = true) (field x "reporter"))
  /\ (isProject x = true ->
      optional (fun v => isUser v = true) (field x "lead")).
Proof.
  split_all.
  - intros H. split; eapply guard_field; try exact H; in_shape.
  - intros H. split; eapply guard_optional_field; try exact H; in_shape.
  - intros H. eapply guard_optional_field; [exact H | in_shape].
Qed.

Lemma entity_guards_compose_witness :
  @isUser sample_formats (field (sample_entry 3600 1) "author") = true
  /\ @isIssue sample_formats (field (sample_entry 3600 1) "issue") = true.
Proof.
  apply (proj1 (@entity_guards_compose sample_formats (sample_entry 3600 1))).
  vm_compute. reflexivity.
Defined.

(** X18: the guards of [jira.ts] compose, and what they leave open.  A
    value that passes [isJiraWorklog] has an [author] that passes
    [isJiraUser], a number [timeSpentSeconds > 0] and a string
    [timeSpent]; the [project] of the [fields] of a value that passes
    [isJiraIssue] passes [isJiraProject], and its [assignee] and the
    [lead] of a Jira project are absent or pass [isJiraUser]. *)
Theorem jira_guards_compose {formats : Formats} (x : value) :
  (isJiraWorklog x = true ->
   isJiraUser (field x "author") = true
   /\ is_string (field x "timeSpent")
   /\ exists n, field x "timeSpentSeconds" = VNum n /\ gt0 n = true)
  /\ (isJiraIssue x = true ->
      isJiraProject (field (field x "fields") "project") = true
      /\ optional (fun v => isJiraUser v = true)
           (field (field x "fields") "assignee"))
  /\ (isJiraProject x = true ->
      optional (fun v => isJiraUser v = true) (field x "lead")).
Proof.
  split_all.
  - intros H. split; [eapply guard_field; [exact H | in_shape]|].
    apply guard_accepts in H. split.
    + apply accepts_string_plain with (p := []).
      eapply accepted_field; [exact H | in_shape].
    + apply accepts_positive with (p := []).
      eapply accepted_field; [exact H | in_shape].
  - intros H.
    assert (success
              (safeParse
                 (zod (ZObject [
                    ("summary", ZString []);
                    ("description", ZOptional (ZObject [
                       ("type", ZString []);
                       ("version", ZNumber []);
                       ("content", ZArray ZAny)
                     ]));
                    ("issuetype", JiraIssueTypeSchema);
                    ("status", JiraStatusSchema);
                    ("priority", ZOptional JiraPrioritySchema);
                    ("assignee", ZOptional JiraUserSchema);
                    ("reporter", ZOptional JiraUserSchema);
                    ("project", JiraProjectSchema);
                    ("created", ZString []);
                    ("updated", ZString [])
                  ])) (field x "fields")) = true) as Hf
      by (eapply guard_field; [exact H | in_shape]).
    split; [eapply guard_field | eapply guard_optional_field];
      try exact Hf; in_shape.
  - intros H. eapply guard_optional_field; [exact H | in_shape].
Qed.

Lemma jira_guards_compose_witness :
  @isJiraUser jira_formats (field sample_jira_worklog "author") = true
  /\ is_string (field sample_jira_worklog "timeSpent")
  /\ exists n,
       field sample_jira_worklog "timeSpentSeconds" = VNum n
       /\ gt0 n = true.
Proof.
  apply (proj1 (@jira_guards_compose jira_formats sample_jira_worklog)).
  vm_compute. reflexivity.
Defined.

(** ** Requests *)

(** X20: [isExportRequest] is true exactly on an object whose [format]
    is one of csv, excel and pdf, whose [includeDetails] is a boolean and
    whose [fileName] is absent or a string; [filters] and [grouping] are
    not looked at, and the file name is not examined beyond being a
    string. *)
Theorem export_request_guard {formats : Formats} (x : value) :
  isExportRequest x = true
  <-> is_object x
      /\ one_of exportFormats (field x "format")
      /\ is_boolean (field x "includeDetails")
      /\ optional is_string (field x "fileName").
Proof.
  unfold isExportRequest. rewrite guard_accepts.
  unfold ExportRequestSchema.
  rewrite accepts_object_fields, !Forall_cons_iff. cbn [fst snd].
  rewrite accepts_enum, accepts_boolean, accepts_optional,
    accepts_string_plain.
  unfold one_of, is_boolean, optional, is_string. split.
  - intros (Ho & _ & _ & Hf & Hb & Hn & _). auto.
  - intros (Ho & Hf & Hb & Hn).
    split; [exact Ho|]. split; [apply accepts_any|].
    split; [apply accepts_any|]. split; [exact Hf|].
    split; [exact Hb|]. split; [exact Hn | constructor].
Qed.

(** ** Where the issues of an array are *)

Section Located.
Context {formats : Formats}.

Lemma invalid_type_path p e d : path (invalid_type p e d) = p.
Proof. destruct d; reflexivity. Qed.

Lemma issue_at p e : path e = p -> exists rest, path e = (p ++ rest)%list.
Proof. intros H. exists []. rewrite app_nil_r. exact H. Qed.

Lemma in_one {A} (a b : A) : In a [b] -> a = b.
Proof. intros [H|[]]. symmetry. exact H. Qed.

Lemma parse_items_issue
  (f : list PathKey -> value -> list ZodIssue * value) items :
  forall p i e,
  In e (List.concat (map fst (parse_items f p i items))) ->
  exists (k : nat) (item : value),
    nth_error items k = Some item
    /\ In e (fst (f (p ++ [PIndex (i + N.of_nat k)])%list item)).
Proof.
  induction items as [|x items IH]; intros p i e H; [destruct H|].
  cbn [parse_items map List.concat] in H. apply in_app_or in H.
  destruct H as [H|H].
  - exists O, x. split; [reflexivity|].
    cbn [N.of_nat]. rewrite N.add_0_r. exact H.
  - destruct (IH _ _ _ H) as (k & item & Hk & He).
    exists (S k), item. split; [exact Hk|].
    rewrite Nat2N.inj_succ.
    replace (i + N.succ (N.of_nat k))%N with (N.succ i + N.of_nat k)%N
      by lia.
    exact He.
Qed.

(** Every issue is raised at or below the path of the data parsed. *)
Lemma issue_paths s : forall p data e,
  In e (fst (parse s p data)) -> exists rest, path e = (p ++ rest)%list.
Proof.
  induction s as [checks|checks| |values| |inner IH|element IH|shape IH]
    using Schema_forall_ind; intros p data e He.
  - destruct data; cbn [parse fst] in He;
      try (apply in_one in He; subst e; apply issue_at, invalid_type_path).
    apply in_flat_map in He. destruct He as [c [_ He]].
    destruct c; cbn [string_check] in He;
      [destruct (is_email s) | destruct (is_url s)];
      ((apply in_one in He; subst e; apply issue_at; reflexivity)
       || destruct He).
  - destruct data as [| | |n| | | |]; cbn [parse fst] in He;
      try (apply in_one in He; subst e; apply issue_at, invalid_type_path).
    destruct n; cbn [fst] in He;
      try (apply in_one in He; subst e; apply issue_at; reflexivity);
      (apply in_flat_map in He; destruct He as [c [_ He]];
       destruct c as [|b]; cbn [number_check] in He;
       match type of He with
       | In _ (if ?t then _ else _) => destruct t
       end;
       ((apply in_one in He; subst e; apply issue_at; reflexivity)
        || destruct He)).
  - destruct data; cbn [parse fst] in He;
      ((apply in_one in He; subst e; apply issue_at, invalid_type_path)
       || destruct He).
  - destruct data; cbn [parse fst] in He;
      try (apply in_one in He; subst e; apply issue_at, invalid_type_path).
    destruct (existsb (String.eqb s) values); cbn [fst] in He;
      [destruct He|]. apply in_one in He. subst e. apply issue_at.
    reflexivity.
  - destruct He.
  - destruct data; cbn [parse] in He; try (eapply IH; exact He).
    destruct He.
  - destruct data as [| | | | |items| |]; cbn [parse fst] in He;
      try (apply in_one in He; subst e; apply issue_at, invalid_type_path).
    apply parse_items_issue in He. destruct He as (k & item & _ & He).
    apply IH in He. destruct He as [rest He].
    exists (PIndex (0 + N.of_nat k) :: rest).
    rewrite He, <- app_assoc. reflexivity.
  - destruct data as [| | | | | |props|];
      try (cbn [parse fst] in He; apply in_one in He; subst e;
           apply issue_at, invalid_type_path).
    rewrite parse_object_issues in He. apply in_concat in He.
    destruct He as [l [Hl He]]. apply in_map_iff in Hl.
    destruct Hl as [ks [<- Hks]]. rewrite Forall_forall in IH.
    apply (IH ks Hks) in He. destruct He as [rest He].
    exists (PKey (fst ks) :: rest). rewrite He, <- app_assoc. reflexivity.
Qed.

Lemma array_issue_located s items e :
  In e (fst (parse (ZArray s) [] (VArr items))) -> located s items e.
Proof.
  cbn [parse fst]. intros He. apply parse_items_issue in He.
  destruct He as (k & item & Hk & He). cbn [app] in He.
  rewrite N.add_0_l in He.
  destruct (issue_paths s _ _ _ He) as [rest Hp].
  exists k, item, rest. split; [exact Hk|]. split; [exact Hp|].
  intros Ha. apply (accepts_path s [] [PIndex (N.of_nat k)]) in Ha.
  unfold accepts in Ha. rewrite Ha in He. destruct He.
Qed.

End Located.

(** X21: when an array validator ([validateTimesheetEntries],
    [validateUsers], [validateProjects]: [validateData] over the array of
    an element schema) refuses an array, its message is the heading and
    the lines of at least one issue, and the path of every issue starts
    with the index of an item that the element schema refuses on its own:
    each line of the message names an offending item. *)
Theorem array_errors_name_the_item {formats : Formats} (s : Schema)
  (items : list value) (errorMessage : option string) (message : string) :
  validateData (zod (ZArray s)) (VArr items) errorMessage = Throw message ->
  exists errors,
    message = (heading errorMessage ++ ": " ++ errorDetails errors)%string
    /\ errors <> []
    /\ Forall (located s items) errors.
Proof.
  unfold validateData.
  destruct (safeParse (zod (ZArray s)) (VArr items)) as [d|errors] eqn:E;
    [discriminate|].
  intros H. injection H as <-. exists errors.
  apply safeParse_Failure in E. destruct E as [E Hne].
  split; [reflexivity|]. split; [exact Hne|].
  apply Forall_forall. intros e He. apply array_issue_located.
  rewrite <- E. exact He.
Qed.

Lemma array_errors_name_the_item_witness :
  exists errors,
    "Invalid users array: 1.email: Invalid email, 1.active: Required"
    = (heading (Some "Invalid users array") ++ ": "
       ++ errorDetails errors)%string
    /\ errors <> []
    /\ Forall (@located sample_formats UserSchema
                 [sample_user;
                  VObj [("id", VStr "u2"); ("email", VStr "nobody");
                        ("displayName", VStr "N");
                        ("accountId", VStr "acc-2")]])
         errors.
Proof.
  apply (@array_errors_name_the_item sample_formats UserSchema
           [sample_user;
            VObj [("id", VStr "u2"); ("email", VStr "nobody");
                  ("displayName", VStr "N"); ("accountId", VStr "acc-2")]]
           (Some "Invalid users array")).
  reflexivity.
Defined.

(** ** Labels *)

(** X22: the labels of [getGroupingDimensionLabel] and of
    [getDateGroupingTypeLabel] identify what they label: two dimensions,
    or two date grouping types, with the same label are the same. *)
Theorem labels_are_distinct :
  (forall d1 d2 : Grouping.GroupingDimension,
     getGroupingDimensionLabel d1 = getGroupingDimensionLabel d2 -> d1 = d2)
  /\ (forall t1 t2 : Grouping.DateGroupingType,
        getDateGroupingTypeLabel t1 = getDateGroupingTypeLabel t2 -> t1 = t2).
Proof.
  split.
  - intros d1 d2; destruct d1, d2; cbn; intros H;
      (reflexivity || discriminate H).
  - intros t1 t2; destruct t1, t2; cbn; intros H;
      (reflexivity || discriminate H).
Qed.

Lemma labels_are_distinct_witness : Grouping.week = Grouping.week.
Proof.
  apply (proj2 labels_are_distinct Grouping.week Grouping.week).
  reflexivity.
Defined.

(** ** Filter states *)

(** X23: what [isFilterState] checks of the bounds of a filter.  On a
    value it accepts, [minHours] and [maxHours] are absent or numbers
    greater than 0; and that is all: a filter state with any two strings
    as [startDate] and [endDate] and any two positive numbers as
    [minHours] and [maxHours] is accepted, whether or not the strings are
    dates and the minimum is below the maximum. *)
Theorem filter_state_bounds {formats : Formats} (x : value)
  (startDate endDate : string) (minHours maxHours : number) :
  (isFilterState x = true ->
   optional positive_number (field x "minHours")
   /\ optional positive_number (field x "maxHours"))
  /\ (gt0 minHours = true -> gt0 maxHours = true ->
      isFilterState (filter_state_with startDate endDate minHours maxHours)
      = true).
Proof.
  split.
  - intros H. apply guard_accepts in H.
    split; unfold optional, positive_number;
      rewrite <- (accepts_positive []), <- accepts_optional;
      (eapply accepted_field; [exact H | in_shape]).
  - intros Ha Hb. apply guard_accepts. unfold FilterStateSchema.
    apply accepts_object_fields. split; [eexists; reflexivity|].
    repeat (apply Forall_cons; [try reflexivity|]); try apply Forall_nil;
      cbn [fst snd field get String.eqb Ascii.eqb Bool.eqb filter_state_with];
      apply accepts_optional; right; apply accepts_positive; eauto.
Qed.

Lemma filter_state_bounds_witness :
  @isFilterState sample_formats
    (filter_state_with "tomorrow" "yesterday" (Fin 8) (Fin 2)) = true.
Proof.
  apply (proj2 (@filter_state_bounds sample_formats VNull
                  "tomorrow" "yesterday" (Fin 8) (Fin 2))); reflexivity.
Defined.

(** ** Default values *)

(** X19: the default values pass their own validators unchanged:
    [validateGroupingConfig] returns [createDefaultGroupingConfig()] as it
    is, and [validateFilterState] returns [createDefaultFilterState()] as
    it is whatever the two days read from the clock are. *)
Theorem defaults_are_valid {formats : Formats} (startDay endDay : string) :
  validateGroupingConfig createDefaultGroupingConfig
  = Return createDefaultGroupingConfig
  /\ validateFilterState (createDefaultFilterState startDay endDay)
     = Return (createDefaultFilterState startDay endDay).
Proof. split; reflexivity. Qed.

End MoreValidationFacts.
